(** * The privileged proxy-certificate locator of cvmfs-x509-helper

    A shallow embedding of [src/x509_helper_fetch.cc]: the environment
    scanner [GetProxyFileFromEnv], the privileged fetch
    [GetProxyFileInternal] and the public entry point [GetX509Proxy],
    together with the properties the specification states about them.

    C strings and buffers are lists of [ascii]; C integers are [Z] with
    their conversions written out; the process-global state the code
    mutates (credentials, root, working directory, descriptor table) is
    threaded explicitly, and every system call is recorded in a trace.

    What the model takes from the platform: Linux on a machine with
    32-bit [int], [pid_t], [uid_t] and [gid_t], signed [char] and
    [PATH_MAX] 4096; the rules of seteuid(2) and setegid(2), with
    effective user id 0 as the privilege to change ids; "/" and "." as
    the root and the working directory of the process.  Whether any
    other call succeeds, and what a path names, is up to the host, an
    arbitrary function of the history of the process.  A file is the
    list of its bytes; reading it does not fail.  Logging and [errno]
    are left out, and streams take no slot in the descriptor table. *)

From Stdlib Require Import ZArith Ascii String List Lia.
From stdpp Require Import base list strings pretty.

Set Default Proof Using "Type".

(** ** C types and constants *)

Module CTypes.

(** [<climits>]: [PATH_MAX] on Linux, and the range of [int]. *)
Definition PATH_MAX : nat := 4096.
Definition INT_MAX : Z := 2147483647.

(** [EOF] of [<cstdio>] and the NUL character. *)
Definition EOF : Z := (-1)%Z.
Definition NUL : ascii := "000"%char.
#[global] Instance ascii_inhabited : Inhabited ascii := populate NUL.

(** Conversion of an integer value to [int] (32 bits, two's complement)
    and to [uid_t], [gid_t], [unsigned] (32 bits, unsigned). *)
Definition to_int (z : Z) : Z := ((z + 2 ^ 31) mod 2 ^ 32 - 2 ^ 31)%Z.
Definition to_uint (z : Z) : Z := (z mod 2 ^ 32)%Z.

(** What [fgetc] yields for a byte read: the byte as [unsigned char]
    converted to [int]. *)
Definition int_of_uchar (a : ascii) : Z := Z.of_N (N_of_ascii a).

(** Integral promotion of a plain [char] (signed on the platforms the
    helper runs on). *)
Definition int_of_char (a : ascii) : Z :=
  let n := Z.of_N (N_of_ascii a) in
  if (n <? 128)%Z then n else (n - 256)%Z.

(** Conversion of an [int] to [char], as in [path[idx++] = c]. *)
Definition char_of_int (c : Z) : ascii := ascii_of_N (Z.to_N (c mod 256)).

(** A string literal as the bytes it denotes (without terminator). *)
Definition lit (s : string) : list ascii := list_ascii_of_string s.

End CTypes.
Export CTypes.

(** ** The part of the C library the helper uses *)

Module Stdio.

(** The C string held in a buffer: the bytes before the first NUL. *)
Fixpoint cstr (buf : list ascii) : list ascii :=
  match buf with
  | [] => []
  | a :: buf' => if Ascii.eqb a NUL then [] else a :: cstr buf'
  end.

Definition strlen (buf : list ascii) : nat := length (cstr buf).

(** [printf]'s [%d]: the argument is read as an [int] and printed in
    decimal, with a minus sign when negative. *)
Definition fmt_d (arg : Z) : list ascii := lit (pretty (to_int arg)).

(** [snprintf(buf, size, ...)] where the format expands to [out]: at
    most [size - 1] bytes of [out] are stored, followed by NUL; the
    result is the length [out] has, whether or not it was truncated. *)
Definition snprintf (buf : list ascii) (size : nat) (out : list ascii)
  : Z * list ascii :=
  (Z.of_nat (length out),
   match size with
   | O => buf
   | S n => list_inserts 0 (take n out ++ [NUL]) buf
   end).

(** An open stream: the bytes that reads of it deliver, which are those
    of the file up to its end or up to the first read that fails, and
    the read position. *)
Record FILE := mkFILE { f_data : list ascii; f_pos : nat }.

(** [fread(buf, 1, n, fp)]: the next [n] bytes, fewer when the file
    ends or when a read fails before that; the count is all the caller
    here looks at, and it does not tell the two apart. *)
Definition fread (n : nat) (fp : FILE) : list ascii * FILE :=
  let got := take n (drop (f_pos fp) (f_data fp)) in
  (got, mkFILE (f_data fp) (f_pos fp + length got)).

Definition rewind (fp : FILE) : FILE := mkFILE (f_data fp) 0.

(** An array with automatic storage and no initialiser: [n] bytes of
    whatever the stack [junk] holds. *)
Definition uninit (junk : nat -> ascii) (n : nat) : list ascii :=
  map junk (seq 0 n).

End Stdio.
Export Stdio.

(** ** The environment scanner: the loop of [GetProxyFileFromEnv] *)

Module Scanner.

(** [static const char * const X509_USER_PROXY = "\0X509_USER_PROXY="]:
    the array the literal denotes, with its terminating NUL. *)
Definition X509_USER_PROXY : list ascii :=
  NUL :: lit "X509_USER_PROXY=" ++ [NUL].

(** [strlen(X509_USER_PROXY + 1) + 1] *)
Definition X509_USER_PROXY_LEN : nat := strlen (drop 1 X509_USER_PROXY) + 1.

(** The variables of the loop other than [c]. *)
Record vars := mkVars {
  idx : nat;
  key_idx : nat;
  path : list ascii
}.

(** One pass through the body of [while (1)] up to, and not including,
    [c = fgetc(fp)].  [Some set_env] is a [break] with that value of
    [set_env]; [None] falls through to the [fgetc]. *)
Definition scan_step (path_len : nat) (c : Z) (v : vars)
  : vars * option bool :=
  if (c =? EOF)%Z then (v, Some false)
  else if key_idx v =? X509_USER_PROXY_LEN then
    if path_len - 1 <=? idx v then (v, Some false)
    else if (c =? int_of_char NUL)%Z then (v, Some true)
    else (mkVars (S (idx v)) (key_idx v)
                 (<[idx v := char_of_int c]> (path v)), None)
  else
    let k := X509_USER_PROXY !!! key_idx v in
    if negb (int_of_char k =? c)%Z
    then (mkVars (idx v) 0 (path v), None)
    else (mkVars (idx v) (S (key_idx v)) (path v), None).

(** The loop, entered with [c] already read and [rest] still unread in
    the stream.  Past the last byte [fgetc] yields [EOF], on which the
    next pass breaks with [set_env] still false. *)
Fixpoint scan_loop (path_len : nat) (c : Z) (rest : list ascii) (v : vars)
  : bool * vars :=
  match scan_step path_len c v with
  | (v', Some set_env) => (set_env, v')
  | (v', None) =>
      match rest with
      | [] => (false, v')
      | a :: rest' => scan_loop path_len (int_of_uchar a) rest' v'
      end
  end.

(** [c = fgetc(fp)] and the rest of the loop: what [scan_loop] does once
    a pass has fallen through. *)
Definition scan_next (path_len : nat) (rest : list ascii) (v : vars)
  : bool * vars :=
  match rest with
  | [] => (false, v)
  | a :: rest' => scan_loop path_len (int_of_uchar a) rest' v
  end.

(** Lines 55-73: the scan of the whole record [env] into [path], and
    the final [if (set_env) path[idx] = '\0'; return set_env]. *)
Definition scan (path_len : nat) (env : list ascii) (path : list ascii)
  : bool * list ascii :=
  let '(set_env, v) :=
    scan_loop path_len (int_of_char NUL) env (mkVars 0 0 path) in
  (set_env, if set_env then <[idx v := NUL]> (Scanner.path v)
            else Scanner.path v).

End Scanner.
Export Scanner.

(** ** The host: credentials, root, working directory, descriptors *)

Module Host.

(** A directory, by identity. *)
Definition dir := nat.

Inductive syscall :=
| Seteuid (u : Z)
| Setegid (g : Z)
| Open (p : list ascii)
| Chdir (p : list ascii)
| Chroot (p : list ascii)
| Fchdir (fd : Z)
| Fopen (p : list ascii).

(** The process-global state the kernel keeps for the helper.  [fds]
    is the descriptor table as [open] of a directory sees and fills
    it: slot [n] is the directory the descriptor [n] refers to.  The
    descriptors behind the streams that [fopen] gives are not kept in
    it. *)
Record kernel := mkKernel {
  ruid : Z; euid : Z; suid : Z;
  rgid : Z; egid : Z; sgid : Z;
  root : dir;
  cwd : dir;
  fds : list (option dir)
}.

Definition set_euid (u : Z) (k : kernel) : kernel :=
  mkKernel (ruid k) u (suid k) (rgid k) (egid k) (sgid k)
           (root k) (cwd k) (fds k).
Definition set_egid (g : Z) (k : kernel) : kernel :=
  mkKernel (ruid k) (euid k) (suid k) (rgid k) g (sgid k)
           (root k) (cwd k) (fds k).
Definition set_root (d : dir) (k : kernel) : kernel :=
  mkKernel (ruid k) (euid k) (suid k) (rgid k) (egid k) (sgid k)
           d (cwd k) (fds k).
Definition set_cwd (d : dir) (k : kernel) : kernel :=
  mkKernel (ruid k) (euid k) (suid k) (rgid k) (egid k) (sgid k)
           (root k) d (fds k).
Definition set_fds (t : list (option dir)) (k : kernel) : kernel :=
  mkKernel (ruid k) (euid k) (suid k) (rgid k) (egid k) (sgid k)
           (root k) (cwd k) t.

(** A system call as [strace] would show it: the call, whether it
    succeeded, and the state it was issued in. *)
Record event := mkEvent {
  ev_call : syscall;
  ev_ok : bool;
  ev_at : kernel
}.

(** The process: its kernel state and the calls made so far, the most
    recent first. *)
Record proc := mkProc { kern : kernel; trace : list event }.

(** What lies outside the process.  The answers may depend on the whole
    history, so a path may resolve now and fail later.
    - [permits]: the kernel's verdict on a call to [open], [chdir],
      [chroot] or [fchdir] (permissions, capabilities, limits);
    - [dir_at]: the directory a path other than "/" and "." names;
    - [file_at]: the file [fopen(path, "r")] can open, as the bytes
      that reading it delivers: all its bytes, or those before the
      first read that fails (EIO; none at all for a directory, EISDIR);
    - [lost_at]: the bytes of that file that lie past the failing read
      and that no read delivers; empty when the file is read to its
      end;
    - [junk]: what uninitialised stack memory holds. *)
Record host := mkHost {
  permits : proc -> syscall -> bool;
  dir_at : proc -> list ascii -> option dir;
  file_at : proc -> list ascii -> option (list ascii);
  lost_at : proc -> list ascii -> list ascii;
  junk : nat -> ascii
}.

(** All the bytes of the file [fopen(p, "r")] can open: those reading
    it delivers, then those lost to a read that fails. *)
Definition whole_file (h : host) (s : proc) (p : list ascii)
  : option (list ascii) :=
  (fun data => data ++ lost_at h s p) <$> file_at h s p.

(** A call either returns to its caller or ends the process
    ([abort()], a failed [assert]). *)
Inductive outcome (A : Type) :=
| Returned (a : A) (s : proc)
| Aborted (s : proc).
Arguments Returned {A} a s.
Arguments Aborted {A} s.

Definition M (A : Type) : Type := proc -> outcome A.

Definition ret {A} (a : A) : M A := fun s => Returned a s.
Definition abort {A} : M A := fun s => Aborted s.
Definition bind {A B} (m : M A) (k : A -> M B) : M B :=
  fun s => match m s with
           | Returned a s' => k a s'
           | Aborted s' => Aborted s'
           end.

Definition final {A} (o : outcome A) : proc :=
  match o with Returned _ s => s | Aborted s => s end.

Definition returned {A} (o : outcome A) : bool :=
  match o with Returned _ _ => true | Aborted _ => false end.

Declare Scope host_scope.
Delimit Scope host_scope with host.
Notation "x <- m ;; k" := (bind m (fun x => k))
  (at level 100, m at next level, right associativity) : host_scope.
Notation "m ;; k" := (bind m (fun _ => k))
  (at level 100, right associativity) : host_scope.

Definition record (call : syscall) (ok : bool) (k' : kernel) (s : proc)
  : proc :=
  mkProc k' (mkEvent call ok (kern s) :: trace s).

(** [(uid_t)-1] and [(gid_t)-1] are not ids. *)
Definition valid_id (i : Z) : bool := negb (i =? 2 ^ 32 - 1)%Z.

Definition geteuid : M Z := fun s => Returned (euid (kern s)) s.
Definition getegid : M Z := fun s => Returned (egid (kern s)) s.

(** seteuid(2): a process whose effective user id is 0 may take any
    effective id; any other only its real, effective or saved id. *)
Definition seteuid (u : Z) : M Z := fun s =>
  let k := kern s in
  if valid_id u &&
     ((euid k =? 0) || (u =? ruid k) || (u =? euid k) || (u =? suid k))%Z
  then Returned 0%Z (record (Seteuid u) true (set_euid u k) s)
  else Returned (-1)%Z (record (Seteuid u) false k s).

(** setegid(2), likewise for the group ids. *)
Definition setegid (g : Z) : M Z := fun s =>
  let k := kern s in
  if valid_id g &&
     ((euid k =? 0) || (g =? rgid k) || (g =? egid k) || (g =? sgid k))%Z
  then Returned 0%Z (record (Setegid g) true (set_egid g k) s)
  else Returned (-1)%Z (record (Setegid g) false k s).

(** The lowest unused descriptor, and the table with it in use. *)
Fixpoint lowest_free (t : list (option dir)) : nat :=
  match t with
  | Some _ :: t' => S (lowest_free t')
  | _ => 0
  end.

Definition install (t : list (option dir)) (d : dir)
  : nat * list (option dir) :=
  let fd := lowest_free t in
  (fd, if fd <? length t then <[fd := Some d]> t else t ++ [Some d]).

Definition fd_dir (t : list (option dir)) (fd : Z) : option dir :=
  if (fd <? 0)%Z then None else mjoin (t !! Z.to_nat fd).

Section Calls.
Variable h : host.

(** "/" is the root of the process and "." its working directory. *)
Definition resolve (s : proc) (p : list ascii) : option dir :=
  if decide (p = lit "/") then Some (root (kern s))
  else if decide (p = lit ".") then Some (cwd (kern s))
  else dir_at h s p.

Definition lookup_dir (s : proc) (call : syscall) (p : list ascii)
  : option dir :=
  if permits h s call then resolve s p else None.

(** [open(p, O_RDONLY)] of a directory. *)
Definition open (p : list ascii) : M Z := fun s =>
  match lookup_dir s (Open p) p with
  | Some d =>
      let '(fd, t) := install (fds (kern s)) d in
      Returned (Z.of_nat fd) (record (Open p) true (set_fds t (kern s)) s)
  | None => Returned (-1)%Z (record (Open p) false (kern s) s)
  end.

Definition chdir (p : list ascii) : M Z := fun s =>
  match lookup_dir s (Chdir p) p with
  | Some d => Returned 0%Z (record (Chdir p) true (set_cwd d (kern s)) s)
  | None => Returned (-1)%Z (record (Chdir p) false (kern s) s)
  end.

Definition chroot (p : list ascii) : M Z := fun s =>
  match lookup_dir s (Chroot p) p with
  | Some d => Returned 0%Z (record (Chroot p) true (set_root d (kern s)) s)
  | None => Returned (-1)%Z (record (Chroot p) false (kern s) s)
  end.

Definition fchdir (fd : Z) : M Z := fun s =>
  match (if permits h s (Fchdir fd) then fd_dir (fds (kern s)) fd
         else None) with
  | Some d => Returned 0%Z (record (Fchdir fd) true (set_cwd d (kern s)) s)
  | None => Returned (-1)%Z (record (Fchdir fd) false (kern s) s)
  end.

(** [fopen(p, "r")] *)
Definition fopen (p : list ascii) : M (option FILE) := fun s =>
  match file_at h s p with
  | Some data =>
      Returned (Some (mkFILE data 0)) (record (Fopen p) true (kern s) s)
  | None => Returned None (record (Fopen p) false (kern s) s)
  end.

End Calls.

End Host.
Export Host.

(** ** The three functions of [x509_helper_fetch.cc] *)

Module Fetch.
Local Open Scope host_scope.

Definition environ_path (pid : Z) : list ascii :=
  lit "/proc/" ++ fmt_d pid ++ lit "/environ".
Definition root_path (pid : Z) : list ascii :=
  lit "/proc/" ++ fmt_d pid ++ lit "/root".
Definition cwd_path (pid : Z) : list ascii :=
  lit "/proc/" ++ fmt_d pid ++ lit "/cwd".
Definition default_path (uid : Z) : list ascii :=
  lit "/tmp/x509up_u" ++ fmt_d uid.

(** Modelled from the spec: the request type [AuthzRequest] is declared
    in [x509_helper_req.h], which is not among the sources; the spec's
    LookupRequest gives its fields: process id, target user id, target
    group id, and a label used for diagnostics only. *)
Record AuthzRequest := mkAuthzRequest {
  req_pid : Z;
  req_uid : Z;
  req_gid : Z;
  req_ident : string
}.

Section WithHost.
Variable h : host.

(** [GetProxyFileFromEnv(pid, path_len, path)]: the result and the
    caller's buffer afterwards.  Logging is left out. *)
Definition GetProxyFileFromEnv (pid : Z) (path_len : nat)
    (path : list ascii) : M (bool * list ascii) :=
  if path_len =? 0 then abort                (* assert(path_len > 0) *)
  else
    let '(n, path) := snprintf path path_len (environ_path pid) in
    if (to_int (Z.of_nat path_len) <=? n)%Z then ret (false, path)
    else
      olduid <- geteuid ;;
      let olduid := to_int olduid in         (* int olduid *)
      seteuid 0 ;;
      fp <- fopen h (cstr path) ;;
      match fp with
      | None =>
          seteuid (to_uint olduid) ;;
          ret (false, path)
      | Some fp =>
          let '(set_env, path) :=
            scan path_len (drop (f_pos fp) (f_data fp)) path in
          (* fclose(fp) *)
          seteuid (to_uint olduid) ;;
          ret (set_env, path)
      end.

(** The reversal of lines 148-152, with C's short-circuit [||]:
    true when one of the three calls fails. *)
Definition leave_root (fd fd2 : Z) : M bool :=
  r <- fchdir h fd ;;
  if (r =? -1)%Z then ret true else
  r <- chroot h (lit ".") ;;
  if (r =? -1)%Z then ret true else
  r <- fchdir h fd2 ;;
  ret (r =? -1)%Z.

(** [GetProxyFileInternal(pid, uid, gid)]; [None] is [NULL]. *)
Definition GetProxyFileInternal (pid uid gid : Z) : M (option FILE) :=
  let path := uninit (junk h) PATH_MAX in
  r <- GetProxyFileFromEnv pid PATH_MAX path ;;
  let '(found, path) := r in
  let '(n, path) :=
    if found then (0%Z, path)                (* no [snprintf], no overflow *)
    else snprintf path PATH_MAX (default_path uid) in
  if (Z.of_nat PATH_MAX <=? n)%Z then ret None else
  let '(n, container_path) :=
    snprintf (uninit (junk h) PATH_MAX) PATH_MAX (root_path pid) in
  if (Z.of_nat PATH_MAX <=? n)%Z then ret None else
  let '(n, container_cwd) :=
    snprintf (uninit (junk h) PATH_MAX) PATH_MAX (cwd_path pid) in
  if (Z.of_nat PATH_MAX <=? n)%Z then ret None else
  olduid <- geteuid ;;
  let olduid := to_int olduid in             (* int olduid *)
  oldgid <- getegid ;;
  let oldgid := to_int oldgid in             (* int oldgid *)
  seteuid 0 ;;
  fd <- open h (lit "/") ;;
  fd2 <- open h (lit ".") ;;
  if (fd =? -1)%Z || (fd2 =? -1)%Z then
    seteuid (to_uint olduid) ;;
    ret None
  else
  r <- chdir h (cstr container_cwd) ;;
  let can_chroot := negb (r =? -1)%Z in
  r <- (if can_chroot then chroot h (cstr container_path) else ret 0%Z) ;;
  if can_chroot && (r =? -1)%Z then
    r <- fchdir h fd ;;
    if (r =? -1)%Z then abort
    else
      seteuid (to_uint olduid) ;;
      ret None
  else
  setegid gid ;;
  seteuid uid ;;
  fp <- fopen h (cstr path) ;;
  seteuid 0 ;;
  failed <- (if can_chroot then leave_root fd fd2 else ret false) ;;
  if failed then abort else
  setegid (to_uint oldgid) ;;
  seteuid (to_uint olduid) ;;
  ret fp.

(** Lines 113-159 of [GetProxyFileInternal] taken by themselves, with
    the three C strings the lines before them have formatted. *)
Definition privileged_open (path container_path container_cwd : list ascii)
    (uid gid : Z) : M (option FILE) :=
  olduid <- geteuid ;;
  let olduid := to_int olduid in
  oldgid <- getegid ;;
  let oldgid := to_int oldgid in
  seteuid 0 ;;
  fd <- open h (lit "/") ;;
  fd2 <- open h (lit ".") ;;
  if (fd =? -1)%Z || (fd2 =? -1)%Z then
    seteuid (to_uint olduid) ;;
    ret None
  else
  r <- chdir h container_cwd ;;
  let can_chroot := negb (r =? -1)%Z in
  r <- (if can_chroot then chroot h container_path else ret 0%Z) ;;
  if can_chroot && (r =? -1)%Z then
    r <- fchdir h fd ;;
    if (r =? -1)%Z then abort
    else
      seteuid (to_uint olduid) ;;
      ret None
  else
  setegid gid ;;
  seteuid uid ;;
  fp <- fopen h path ;;
  seteuid 0 ;;
  failed <- (if can_chroot then leave_root fd fd2 else ret false) ;;
  if failed then abort else
  setegid (to_uint oldgid) ;;
  seteuid (to_uint olduid) ;;
  ret fp.

(** What [GetProxyFileFromEnv] returns to [GetProxyFileInternal]. *)
Definition env_lookup (pid : Z) (s : proc) : bool * list ascii :=
  let buf1 := (snprintf (uninit (junk h) PATH_MAX) PATH_MAX
                 (environ_path pid)).2 in
  match file_at h (final (seteuid 0 s)) (environ_path pid) with
  | Some env => scan PATH_MAX env buf1
  | None => (false, buf1)
  end.

(** The path [GetProxyFileInternal] goes on with. *)
Definition candidate (pid uid : Z) (s : proc) : list ascii :=
  let r := env_lookup pid s in
  if r.1 then cstr r.2 else default_path uid.

(** The [do ... while (nbytes == kBufSize)] of [GetX509Proxy].  A
    repetition that is followed by another has read [kBufSize] bytes,
    so the recursion is bounded by [fuel], one more than the number
    of unread bytes (see [read_loop_enough]). *)
Definition kBufSize : nat := 1024.

Fixpoint read_loop (fuel : nat) (fproxy : FILE) (proxy : list ascii)
  : FILE * list ascii :=
  match fuel with
  | O => (fproxy, proxy)
  | S fuel' =>
      let '(buf, fproxy) := fread kBufSize fproxy in
      let nbytes := length buf in
      let proxy := if 0 <? nbytes then proxy ++ buf else proxy in
      if nbytes =? kBufSize then read_loop fuel' fproxy proxy
      else (fproxy, proxy)
  end.

Definition unread (fp : FILE) : nat := length (f_data fp) - f_pos fp.

(** [GetX509Proxy(authz_req, proxy)]: the handle returned ([None] is
    [NULL]) and the caller's string afterwards.  [proxy] is the string
    the pointer refers to: the calls embedded are those with a pointer
    that is not [NULL], for which [assert(proxy != NULL)] (line 165)
    holds. *)
Definition GetX509Proxy (authz_req : AuthzRequest) (proxy : list ascii)
  : M (option FILE * list ascii) :=
  fproxy <- GetProxyFileInternal (req_pid authz_req) (req_uid authz_req)
                                 (req_gid authz_req) ;;
  match fproxy with
  | None => ret (None, proxy)
  | Some fproxy =>
      let proxy := [] in                      (* proxy->clear() *)
      let '(fproxy, proxy) :=
        read_loop (S (unread fproxy)) fproxy proxy in
      ret (Some (rewind fproxy), proxy)
  end.

End WithHost.

End Fetch.
Export Fetch.

(** ** Environment records, for stating what the scanner does *)

Module Environ.

(** The key the scanner looks for, with its "=". *)
Definition KEY : list ascii := lit "X509_USER_PROXY=".

(** A record: its entries one after the other, each closed by NUL. *)
Definition entries (es : list (list ascii)) : list ascii :=
  concat (map (fun e => e ++ [NUL]) es).

(** [departs key e]: reading [e] against [key], a byte of [e] differs
    from the byte of [key] at the same place.  False when [e] is a prefix
    of [key] (a cut-off key, the empty entry) and when [key] is a prefix
    of [e] (an assignment to the variable). *)
Fixpoint departs (key e : list ascii) : bool :=
  match key, e with
  | k :: key', a :: e' => if Ascii.eqb k a then departs key' e' else true
  | _, _ => false
  end.

(** An entry that is not an assignment to X509_USER_PROXY and not a
    cut-off key. *)
Definition other_entry (e : list ascii) : Prop :=
  (NUL ∉ e) /\ departs KEY e = true.

(** [pre] ends at an entry boundary. *)
Definition at_boundary (pre : list ascii) : Prop :=
  pre = [] \/ exists pre', pre = pre' ++ [NUL].

(** The buffer after [path[idx++] = c] for each byte of [v] in turn,
    starting at index [i]. *)
Fixpoint stores (i : nat) (v : list ascii) (p : list ascii) : list ascii :=
  match v with
  | [] => p
  | a :: v' => stores (S i) v' (<[i := a]> p)
  end.

(** A call that changes an effective id, or opens the file [p]: calls
    that touch neither the root, the working directory nor the
    descriptor table. *)
Definition cred_or_fopen (p : list ascii) (e : event) : Prop :=
  match ev_call e with
  | Seteuid _ | Setegid _ => True
  | Fopen q => q = p
  | _ => False
  end.

(** The process entered the root of process [pid]: among the events
    is a [chroot("/proc/<pid>/root")] that succeeded. *)
Definition entered_target_root (pid : Z) (evs : list event) : Prop :=
  exists e, e ∈ evs /\ ev_call e = Chroot (root_path pid) /\ ev_ok e = true.

(** A step of the way back, [fchdir(fd)] or [chroot(".")], that failed. *)
Definition reversal_failed (e : event) : Prop :=
  ev_ok e = false /\
  (ev_call e = Chroot (lit ".") \/ exists fd, ev_call e = Fchdir fd).

(** The effective ids are ids, and each is the real or the saved id of
    the process, as they are after an [exec]: the process may go back to
    them whatever effective ids it takes in between. *)
Definition restorable (k : kernel) : Prop :=
  (0 <= euid k < 2 ^ 32 - 1)%Z /\ (0 <= egid k < 2 ^ 32 - 1)%Z /\
  (euid k = ruid k \/ euid k = suid k) /\
  (egid k = rgid k \/ egid k = sgid k).

(** The state of the scan in terms of the bytes [done] read so far:
    either no match is under way, or [done] ends, after an entry
    boundary, with the part of the key matched and the part of the value
    copied. *)
Definition scan_inv (p0 done : list ascii) (s : vars) : Prop :=
  (key_idx s = 0 /\ idx s = 0 /\ path s = p0) \/
  exists pre v,
    at_boundary pre /\ done = pre ++ take (key_idx s - 1) KEY ++ v /\
    1 <= key_idx s <= 17 /\ (key_idx s < 17 -> v = []) /\
    (NUL ∉ v) /\ idx s = length v /\ path s = stores 0 v p0.

(** The entry [name=value]. *)
Definition assignment (name value : list ascii) : list ascii :=
  name ++ lit "=" ++ value.

End Environ.
Export Environ.

(** ** Hosts and processes for the scenarios *)

Module Scenario.

(** A host on which every call is permitted, the only file is the
    environment record of process [pid], holding [env], no read of it
    fails, and no directory path resolves. *)
Definition environ_host (pid : Z) (env : list ascii) : host :=
  mkHost (fun _ _ => true)
         (fun _ _ => None)
         (fun _ p => if decide (p = environ_path pid) then Some env else None)
         (fun _ _ => [])
         (fun _ => "x"%char).

(** The helper started as root, in directory 2 under root 1, with the
    three standard descriptors open. *)
Definition as_root : proc :=
  mkProc (mkKernel 0 0 0 0 0 0 1 2 [Some 9; Some 9; Some 9]) [].

(** A host on which process [pid] lives under root 50 in directory 51,
    its environment record is [env] when there is one, [files] gives
    the other files, every file is read to its end, and [refuses] says
    which calls the kernel turns down. *)
Definition container_host (pid : Z) (env : option (list ascii))
    (files : list ascii -> option (list ascii))
    (refuses : proc -> syscall -> bool) : host :=
  mkHost (fun s c => negb (refuses s c))
         (fun _ p => if decide (p = root_path pid) then Some 50
                     else if decide (p = cwd_path pid) then Some 51
                     else None)
         (fun _ p => if decide (p = environ_path pid) then env else files p)
         (fun _ _ => [])
         (fun _ => "x"%char).

(** The file system holds the default proxy of user 1000 only. *)
Definition proxy_1000 (p : list ascii) : option (list ascii) :=
  if decide (p = lit "/tmp/x509up_u1000") then Some (lit "CERTIFICATE")
  else None.

(** The host of process 42 on which the default proxy of user 1000
    holds "CERTIFICATE" and reading it fails (EIO) past its fourth
    byte; there is no environment record and no call is refused. *)
Definition read_error_host : host :=
  let c := container_host 42 None
             (fun p => if decide (p = lit "/tmp/x509up_u1000")
                       then Some (lit "CERT") else None)
             (fun _ _ => false) in
  mkHost (permits c) (dir_at c) (file_at c)
         (fun _ p => if decide (p = lit "/tmp/x509up_u1000")
                     then lit "IFICATE" else [])
         (junk c).

(** No capability to change the root: every [chroot] is refused. *)
Definition no_chroot (s : proc) (c : syscall) : bool :=
  match c with Chroot _ => true | _ => false end.

(** Under the root of the container, [fchdir] is refused. *)
Definition no_way_back (s : proc) (c : syscall) : bool :=
  match c with Fchdir _ => root (kern s) =? 50 | _ => false end.

Definition nothing_refused (s : proc) (c : syscall) : bool := false.

(** The helper running without privilege as user and group 1000 (the
    deployment the comment in [GetProxyFileFromEnv] names), in
    directory 2 under root 1. *)
Definition as_user_1000 : proc :=
  mkProc (mkKernel 1000 1000 1000 1000 1000 1000 1 2
                   [Some 9; Some 9; Some 9]) [].

(** The environment record of a process that does not set the
    variable. *)
Definition plain_environ : list ascii :=
  entries [lit "HOME=/home/u"; lit "PATH=/bin"].

(** There is an event for the call [c]. *)
Definition called (c : syscall) (s : proc) : Prop :=
  exists e, e ∈ trace s /\ ev_call e = c.

(** A buffer of [PATH_MAX] bytes. *)
Definition some_buffer : list ascii := replicate PATH_MAX "x"%char.

(** What a call returned, if it returned. *)
Definition result {A} (o : outcome A) : option A :=
  match o with Returned a _ => Some a | Aborted _ => None end.

End Scenario.
Export Scenario.

(** ** Further notions about records, descriptors and hosts *)

Module Further.

(** [key] is a prefix of [e]. *)
Fixpoint starts_with (key e : list ascii) : bool :=
  match key, e with
  | [], _ => true
  | k :: key', a :: e' => Ascii.eqb k a && starts_with key' e'
  | _ :: _, [] => false
  end.

(** The lookup by entries that the scanner is meant to agree with: the
    record split at its NULs, the first entry that starts with the key
    and its "=", and what follows the "=" in it. *)
Fixpoint tokenizer_lookup (es : list (list ascii)) : option (list ascii) :=
  match es with
  | [] => None
  | e :: es' =>
      if starts_with KEY e then Some (drop (length KEY) e)
      else tokenizer_lookup es'
  end.

(** An entry that stops inside the key: a proper prefix of
    "X509_USER_PROXY=", the empty entry included. *)
Definition cut_off_key (c : list ascii) : Prop :=
  c <> KEY /\ c `prefix_of` KEY.

(** A process without privilege: its three user ids are one id, not 0,
    and its three group ids are one id. *)
Definition unprivileged (k : kernel) : Prop :=
  ruid k = euid k /\ suid k = euid k /\ euid k <> 0%Z /\
  rgid k = egid k /\ sgid k = egid k.

(** The kernel refuses to open ".", as when the descriptors have run
    out after [open("/")] took the last. *)
Definition no_open_dot (s : proc) (c : syscall) : bool :=
  match c with Open p => bool_decide (p = lit ".") | _ => false end.

(** The kernel refuses every [chdir], as it does when the directory of
    the target cannot be searched. *)
Definition no_chdir (s : proc) (c : syscall) : bool :=
  match c with Chdir _ => true | _ => false end.

(** A call to [seteuid], or the [fopen] of the file [p]. *)
Definition euid_or_fopen (p : list ascii) (e : event) : Prop :=
  match ev_call e with
  | Seteuid _ => True
  | Fopen q => q = p
  | _ => False
  end.

(** An [open] that failed. *)
Definition open_failed (e : event) : Prop :=
  (exists p, ev_call e = Open p) /\ ev_ok e = false.

(** A call that does not touch the root or the working directory. *)
Definition stays_put (e : event) : Prop :=
  match ev_call e with
  | Chdir _ | Chroot _ | Fchdir _ => False
  | _ => True
  end.

End Further.
Export Further.

(** * Properties *)

(** ** The C library *)

Lemma cstr_app_NUL (v rest : list ascii) :
  NUL ∉ v -> cstr (v ++ NUL :: rest) = v.
Proof.
  induction v as [|a v IH]; intros Hv; simpl.
  - reflexivity.
  - destruct (Ascii.eqb_spec a NUL) as [->|Hne].
    + exfalso. apply Hv. left.
    + f_equal. apply IH. intros Hin. apply Hv. right. exact Hin.
Qed.

Lemma drop_S_cons {A} (j : nat) (l l' : list A) (x : A) :
  drop j l = x :: l' -> drop (S j) l = l'.
Proof.
  intros H. replace (S j) with (j + 1) by lia.
  rewrite <- drop_drop, H. reflexivity.
Qed.

Lemma lit_app (s1 s2 : string) :
  lit (s1 +:+ s2) = lit s1 ++ lit s2.
Proof.
  unfold lit. induction s1 as [|a s1 IH]; simpl; [reflexivity|].
  f_equal. exact IH.
Qed.

(** *** Decimal output: no NUL, and at most eleven bytes for an [int] *)

Lemma pretty_N_char_not_NUL (x : N) : pretty_N_char x <> NUL.
Proof.
  unfold pretty_N_char. repeat case_match; discriminate.
Qed.

Lemma pretty_N_go_not_NUL (x : N) (s : string) :
  (NUL ∉ lit s) -> NUL ∉ lit (pretty_N_go x s).
Proof.
  revert s. induction (N.lt_wf_0 x) as [x _ IH]; intros s Hs.
  destruct (N.eq_dec x 0%N) as [->|Hx].
  - rewrite pretty_N_go_0. exact Hs.
  - rewrite pretty_N_go_step by lia. apply IH.
    + apply N.div_lt; lia.
    + unfold lit. simpl. intros [Hc|Hin]%elem_of_cons.
      * exact (pretty_N_char_not_NUL _ (eq_sym Hc)).
      * exact (Hs Hin).
Qed.

Lemma pretty_N_go_length (k : nat) (x : N) (s : string) :
  (x < 10 ^ N.of_nat k)%N ->
  length (lit (pretty_N_go x s)) <= k + length (lit s).
Proof.
  revert x s. induction k as [|k IH]; intros x s Hx.
  - assert (x = 0%N) as -> by (simpl in Hx; lia).
    rewrite pretty_N_go_0. lia.
  - destruct (N.eq_dec x 0%N) as [->|Hx0].
    + rewrite pretty_N_go_0. lia.
    + rewrite pretty_N_go_step by lia.
      etransitivity; [apply IH|unfold lit; simpl; lia].
      rewrite Nat2N.inj_succ, N.pow_succ_r' in Hx.
      apply N.Div0.div_lt_upper_bound. lia.
Qed.

Lemma fmt_d_not_NUL (arg : Z) : NUL ∉ fmt_d arg.
Proof.
  unfold fmt_d. destruct (to_int arg) as [|x|x]; unfold pretty, pretty_Z.
  - vm_compute. intros [Hc|Hin]%elem_of_cons; [discriminate|].
    exact (not_elem_of_nil _ Hin).
  - unfold pretty, pretty_positive, pretty, pretty_N.
    destruct (decide (N.pos x = 0%N)); [discriminate|].
    apply pretty_N_go_not_NUL. apply not_elem_of_nil.
  - rewrite lit_app. intros [Hin|Hin]%elem_of_app.
    + vm_compute in Hin. apply elem_of_cons in Hin as [Hc|Hin];
        [discriminate|exact (not_elem_of_nil _ Hin)].
    + revert Hin. unfold pretty, pretty_positive, pretty, pretty_N.
      destruct (decide (N.pos x = 0%N)); [discriminate|].
      apply pretty_N_go_not_NUL. apply not_elem_of_nil.
Qed.

Lemma to_int_range (z : Z) : (- 2 ^ 31 <= to_int z < 2 ^ 31)%Z.
Proof.
  unfold to_int. pose proof (Z.mod_pos_bound (z + 2 ^ 31) (2 ^ 32)). lia.
Qed.

Lemma fmt_d_length (arg : Z) : length (fmt_d arg) <= 11.
Proof.
  unfold fmt_d. pose proof (to_int_range arg) as Hr.
  destruct (to_int arg) as [|x|x]; unfold pretty, pretty_Z.
  - vm_compute. lia.
  - unfold pretty, pretty_positive, pretty, pretty_N.
    destruct (decide (N.pos x = 0%N)); [discriminate|].
    etransitivity; [apply (pretty_N_go_length 10)|simpl; lia]. lia.
  - rewrite lit_app, length_app.
    unfold pretty, pretty_positive, pretty, pretty_N.
    destruct (decide (N.pos x = 0%N)); [discriminate|].
    change (length (lit "-")) with 1.
    enough (length (lit (pretty_N_go (N.pos x) EmptyString)) <= 10) by lia.
    etransitivity; [apply (pretty_N_go_length 10)|simpl; lia]. lia.
Qed.

(** *** [snprintf] into a buffer with room for the output *)

Lemma snprintf_fits (buf out : list ascii) (size : nat) :
  (NUL ∉ out) -> length out < size -> size <= length buf ->
  snprintf buf size out =
  (Z.of_nat (length out), out ++ NUL :: drop (S (length out)) buf).
Proof.
  intros Hout Hlen Hbuf. unfold snprintf. f_equal.
  destruct size as [|n]; [lia|].
  rewrite take_ge by lia.
  assert (forall (l q : list ascii), length l <= length q ->
            list_inserts 0 l q = l ++ drop (length l) q) as Hins.
  { clear. intros l q Hq. apply list_eq. intros j.
    destruct (decide (j < length l)).
    - rewrite list_lookup_inserts, lookup_app_l by lia. f_equal. lia.
    - rewrite list_lookup_inserts_ge, lookup_app_r, lookup_drop by lia.
      f_equal. lia. }
  rewrite Hins by (rewrite length_app; simpl; lia).
  rewrite <- app_assoc, length_app. simpl.
  do 3 f_equal. lia.
Qed.

Lemma snprintf_length (buf out : list ascii) (size : nat) :
  length (snprintf buf size out).2 = length buf.
Proof.
  unfold snprintf. simpl. destruct size; [reflexivity|].
  apply length_inserts.
Qed.

Lemma length_uninit (junk : nat -> ascii) (n : nat) :
  length (uninit junk n) = n.
Proof. unfold uninit. rewrite length_map. apply length_seq. Qed.

(** ** The scanner *)

Section ScannerFacts.
Variable path_len : nat.

Lemma scan_loop_eq (c : Z) (rest : list ascii) (v : vars) :
  scan_loop path_len c rest v =
  match scan_step path_len c v with
  | (v', Some set_env) => (set_env, v')
  | (v', None) => scan_next path_len rest v'
  end.
Proof. destruct rest; reflexivity. Qed.

Lemma int_of_uchar_range (a : ascii) : (0 <= int_of_uchar a < 256)%Z.
Proof.
  unfold int_of_uchar. pose proof (N_ascii_bounded a). lia.
Qed.

Lemma int_of_uchar_inj (a b : ascii) : int_of_uchar a = int_of_uchar b -> a = b.
Proof.
  unfold int_of_uchar. intros H. apply N2Z.inj in H.
  rewrite <- (ascii_N_embedding a), <- (ascii_N_embedding b). congruence.
Qed.

Lemma char_of_int_uchar (a : ascii) : char_of_int (int_of_uchar a) = a.
Proof.
  pose proof (int_of_uchar_range a) as Hr.
  unfold char_of_int. rewrite Z.mod_small by lia.
  unfold int_of_uchar. rewrite N2Z.id. apply ascii_N_embedding.
Qed.

Lemma int_of_uchar_NUL (a : ascii) : int_of_uchar a = 0%Z <-> a = NUL.
Proof.
  split; [|intros ->; reflexivity].
  intros H. apply int_of_uchar_inj. rewrite H. reflexivity.
Qed.

(** A byte read from the stream against an ASCII byte of the key. *)
Lemma key_byte_eqb (k a : ascii) :
  (int_of_uchar k < 128)%Z ->
  (int_of_char k =? int_of_uchar a)%Z = Ascii.eqb k a.
Proof.
  intros Hk. unfold int_of_char. fold (int_of_uchar k).
  destruct (Z.ltb_spec (int_of_uchar k) 128); [|lia].
  destruct (Ascii.eqb_spec k a) as [->|Hne].
  - apply Z.eqb_refl.
  - apply Z.eqb_neq. intros He. apply Hne, int_of_uchar_inj, He.
Qed.

Lemma key_bytes_ascii (k : nat) :
  (int_of_uchar (X509_USER_PROXY !!! k) < 128)%Z.
Proof.
  do 18 (destruct k as [|k]; [vm_compute; reflexivity|]).
  vm_compute. reflexivity.
Qed.

(** While the key is being matched a byte moves [key_idx] on or resets it. *)
Lemma scan_step_key (a : ascii) (i k : nat) (p : list ascii) :
  k < 17 ->
  scan_step path_len (int_of_uchar a) (mkVars i k p) =
  (mkVars i (if Ascii.eqb (X509_USER_PROXY !!! k) a then S k else 0) p, None).
Proof.
  intros Hk. unfold scan_step. simpl idx; simpl key_idx; simpl Scanner.path.
  pose proof (int_of_uchar_range a) as Ha.
  destruct (Z.eqb_spec (int_of_uchar a) EOF) as [He|_];
    [unfold EOF in He; lia|].
  change X509_USER_PROXY_LEN with 17.
  destruct (Nat.eqb_spec k 17) as [->|_]; [lia|].
  rewrite key_byte_eqb by apply key_bytes_ascii.
  destruct (Ascii.eqb _ a); reflexivity.
Qed.

(** Once the key has been matched a byte is stored, or ends the loop. *)
Lemma scan_step_value (a : ascii) (i : nat) (p : list ascii) :
  scan_step path_len (int_of_uchar a) (mkVars i 17 p) =
  if path_len - 1 <=? i then (mkVars i 17 p, Some false)
  else if Ascii.eqb a NUL then (mkVars i 17 p, Some true)
  else (mkVars (S i) 17 (<[i := a]> p), None).
Proof.
  unfold scan_step. simpl idx; simpl key_idx; simpl Scanner.path.
  pose proof (int_of_uchar_range a) as Ha.
  destruct (Z.eqb_spec (int_of_uchar a) EOF) as [He|_];
    [unfold EOF in He; lia|].
  change (17 =? X509_USER_PROXY_LEN) with true. cbv iota.
  destruct (path_len - 1 <=? i); [reflexivity|].
  change (int_of_char NUL) with 0%Z.
  rewrite char_of_int_uchar.
  destruct (Ascii.eqb_spec a NUL) as [->|Hne]; [reflexivity|].
  destruct (Z.eqb_spec (int_of_uchar a) 0) as [H0|_]; [|reflexivity].
  apply int_of_uchar_NUL in H0. contradiction.
Qed.

(** Outside a match, everything up to the next NUL is passed over; the
    NUL itself starts a match. *)
Lemma scan_skip (g rest : list ascii) (i : nat) (p : list ascii) :
  NUL ∉ g ->
  scan_next path_len (g ++ NUL :: rest) (mkVars i 0 p) =
  scan_next path_len rest (mkVars i 1 p).
Proof.
  induction g as [|a g IH]; intros Hg; simpl.
  - rewrite scan_loop_eq, scan_step_key by lia. reflexivity.
  - rewrite scan_loop_eq, scan_step_key by lia.
    change (X509_USER_PROXY !!! 0) with NUL.
    destruct (Ascii.eqb_spec NUL a) as [<-|_].
    + exfalso. apply Hg. left.
    + apply IH. intros Hin. apply Hg. right. exact Hin.
Qed.

Lemma key_lookup (j : nat) (k : ascii) (key' : list ascii) :
  drop j KEY = k :: key' -> X509_USER_PROXY !!! S j = k /\ j < 16.
Proof.
  intros Hd.
  assert (KEY !! j = Some k) as Hl.
  { rewrite <- (Nat.add_0_r j), <- lookup_drop, Hd. reflexivity. }
  split.
  - apply list_lookup_total_correct.
    change (X509_USER_PROXY !! S j) with ((KEY ++ [NUL]) !! j).
    apply lookup_app_l_Some, Hl.
  - apply lookup_lt_Some in Hl. exact Hl.
Qed.

(** An entry that departs from the key is passed over as a whole, and
    the scan is at the start of the next entry. *)
Lemma scan_departing (e rest : list ascii) (j i : nat) (p : list ascii) :
  NUL ∉ e -> departs (drop j KEY) e = true ->
  scan_next path_len (e ++ NUL :: rest) (mkVars i (S j) p) =
  scan_next path_len rest (mkVars i 1 p).
Proof.
  revert j. induction e as [|a e IH]; intros j He Hd.
  - destruct (drop j KEY); discriminate.
  - destruct (drop j KEY) as [|k key'] eqn:Hk; [discriminate|].
    destruct (key_lookup _ _ _ Hk) as [Hl Hj].
    simpl. rewrite scan_loop_eq, scan_step_key, Hl by lia.
    simpl in Hd.
    assert (NUL ∉ e) as He' by (intros Hin; apply He; right; exact Hin).
    destruct (Ascii.eqb k a).
    + apply IH; [exact He'|].
      rewrite (drop_S_cons _ _ _ _ Hk). exact Hd.
    + apply scan_skip, He'.
Qed.

Lemma scan_other_entries (es : list (list ascii)) (rest : list ascii)
    (i : nat) (p : list ascii) :
  Forall other_entry es ->
  scan_next path_len (entries es ++ rest) (mkVars i 1 p) =
  scan_next path_len rest (mkVars i 1 p).
Proof.
  induction 1 as [|e es [He Hd] _ IH]; [reflexivity|].
  unfold entries. simpl. fold (entries es).
  rewrite <- !app_assoc. simpl.
  rewrite (scan_departing e _ 0) by assumption. exact IH.
Qed.

(** The key itself, read from the start of an entry. *)
Lemma scan_key (rest : list ascii) (i : nat) (p : list ascii) :
  scan_next path_len (KEY ++ rest) (mkVars i 1 p) =
  scan_next path_len rest (mkVars i 17 p).
Proof.
  change KEY with (take 16 KEY).
  assert (forall n j, n + j = 16 ->
    scan_next path_len (take n (drop j KEY) ++ rest) (mkVars i (S j) p) =
    scan_next path_len rest (mkVars i 17 p)) as Hgen.
  { induction n as [|n IH]; intros j Hj.
    - simpl. assert (j = 16) as -> by lia. reflexivity.
    - destruct (drop j KEY) as [|k key'] eqn:Hk.
      { apply (f_equal length) in Hk. rewrite length_drop in Hk.
        change (length KEY) with 16 in Hk. simpl in Hk. lia. }
      destruct (key_lookup _ _ _ Hk) as [Hl _].
      simpl. rewrite scan_loop_eq, scan_step_key, Hl, Ascii.eqb_refl by lia.
      specialize (IH (S j)).
      rewrite (drop_S_cons _ _ _ _ Hk) in IH. apply IH. lia. }
  apply (Hgen 16 0). reflexivity.
Qed.

(** A value that fits is copied byte for byte, and its NUL ends the scan
    with success. *)
Lemma scan_value (v post : list ascii) (i : nat) (p : list ascii) :
  NUL ∉ v -> i + length v < path_len - 1 ->
  scan_next path_len (v ++ NUL :: post) (mkVars i 17 p) =
  (true, mkVars (i + length v) 17 (stores i v p)).
Proof.
  revert i p. induction v as [|a v IH]; intros i p Hv Hlen; simpl.
  - rewrite scan_loop_eq, scan_step_value.
    destruct (Nat.leb_spec (path_len - 1) i); [simpl in Hlen; lia|].
    rewrite Nat.add_0_r. reflexivity.
  - rewrite scan_loop_eq, scan_step_value.
    simpl in Hlen.
    destruct (Nat.leb_spec (path_len - 1) i); [lia|].
    destruct (Ascii.eqb_spec a NUL) as [->|_].
    { exfalso. apply Hv. left. }
    rewrite IH; [|intros Hin; apply Hv; right; exact Hin|lia].
    replace (i + S (length v)) with (S i + length v) by lia. reflexivity.
Qed.

(** A value that reaches the last index but one of the buffer ends the
    scan with failure, whatever follows it. *)
Lemma scan_value_too_long (v rest : list ascii) (i : nat) (p : list ascii) :
  NUL ∉ v -> path_len - 1 <= i + length v ->
  (scan_next path_len (v ++ rest) (mkVars i 17 p)).1 = false.
Proof.
  revert i p. induction v as [|a v IH]; intros i p Hv Hlen; simpl.
  - destruct rest as [|b rest]; [reflexivity|]. simpl.
    rewrite scan_loop_eq, scan_step_value.
    destruct (Nat.leb_spec (path_len - 1) i); [reflexivity|].
    simpl in Hlen. lia.
  - rewrite scan_loop_eq, scan_step_value.
    destruct (Nat.leb_spec (path_len - 1) i); [reflexivity|].
    destruct (Ascii.eqb_spec a NUL) as [->|_].
    { exfalso. apply Hv. left. }
    apply IH; [intros Hin; apply Hv; right; exact Hin|simpl in Hlen; lia].
Qed.

(** What [stores] leaves in the buffer. *)
Lemma length_stores (v : list ascii) (i : nat) (p : list ascii) :
  length (stores i v p) = length p.
Proof.
  revert i p. induction v as [|a v IH]; intros i p; simpl; [reflexivity|].
  rewrite IH. apply length_insert.
Qed.

Lemma stores_snoc (v : list ascii) (a : ascii) (i : nat) (p : list ascii) :
  stores i (v ++ [a]) p = <[i + length v := a]> (stores i v p).
Proof.
  revert i p. induction v as [|b v IH]; intros i p; simpl.
  - rewrite Nat.add_0_r. reflexivity.
  - rewrite IH. f_equal. lia.
Qed.

Lemma stores_from_0 (v p : list ascii) :
  length v <= length p -> stores 0 v p = v ++ drop (length v) p.
Proof.
  revert p. induction v as [|a v IH] using rev_ind; intros p Hlen.
  - reflexivity.
  - rewrite length_app in Hlen. simpl in Hlen.
    rewrite stores_snoc, IH by lia. simpl.
    rewrite length_app. simpl.
    rewrite insert_app_r_alt by lia. rewrite Nat.sub_diag.
    destruct (drop (length v) p) as [|b q] eqn:Hd.
    { apply (f_equal length) in Hd. rewrite length_drop in Hd.
      simpl in Hd. lia. }
    simpl. rewrite <- app_assoc. simpl. do 2 f_equal.
    replace (length v + 1) with (S (length v)) by lia.
    symmetry. eapply drop_S_cons, Hd.
Qed.

(** The buffer and the C string in it once the terminator is written. *)
Lemma terminated_value (v p : list ascii) :
  NUL ∉ v -> length v < length p ->
  cstr (<[length v := NUL]> (stores 0 v p)) = v.
Proof.
  intros Hv Hlen. rewrite stores_from_0 by lia.
  rewrite insert_app_r_alt by lia. rewrite Nat.sub_diag.
  destruct (drop (length v) p) as [|b q] eqn:Hd.
  { apply (f_equal length) in Hd. rewrite length_drop in Hd.
    simpl in Hd. lia. }
  simpl. apply cstr_app_NUL, Hv.
Qed.

(** The first pass of the loop, with the initial [c = '\0']: the start
    of the record counts as the start of an entry. *)
Lemma scan_loop_start (env p : list ascii) :
  scan_loop path_len (int_of_char NUL) env (mkVars 0 0 p) =
  scan_next path_len env (mkVars 0 1 p).
Proof.
  change (int_of_char NUL) with (int_of_uchar NUL).
  rewrite scan_loop_eq, scan_step_key by lia. reflexivity.
Qed.

(** The step of the induction below: the conclusion follows from the
    induction hypothesis once the invariant holds of the next state. *)
Ltac carry_on p0 IH Hrun :=
  match type of Hrun with
  | scan_loop _ _ _ ?s1 = _ =>
      match goal with
      | |- exists _ _ _, ?done ++ ?a :: _ = _ /\ _ =>
          let Hinv := fresh "Hinv" in
          let Heq := fresh "Heq" in
          assert (scan_inv p0 (done ++ [a]) s1) as Hinv;
          [|destruct (IH _ _ _ Hinv Hrun) as (pre' & v' & post' & Heq & ?);
            exists pre', v', post'; rewrite <- app_assoc in Heq; auto]
      end
  end.

Lemma scan_loop_sound (p0 rest done : list ascii) (a : ascii) (s s' : vars) :
  scan_inv p0 done s ->
  scan_loop path_len (int_of_uchar a) rest s = (true, s') ->
  exists pre v post,
    done ++ a :: rest = pre ++ KEY ++ v ++ NUL :: post /\
    at_boundary pre /\ (NUL ∉ v) /\ length v < path_len - 1 /\
    idx s' = length v /\ path s' = stores 0 v p0.
Proof.
  revert done a s. induction rest as [|b rest IH]; intros done a s Hinv Hrun.
  all: rewrite scan_loop_eq in Hrun; destruct s as [i k p].
  all: unfold scan_inv in Hinv; simpl in Hinv.
  all: destruct Hinv
         as [(-> & -> & ->)
            |(pre & v & Hpre & Hdone & Hk & Hv0 & Hv & -> & ->)].
  (* the last byte of the record, no match under way *)
  - rewrite scan_step_key in Hrun by lia. discriminate.
  - destruct (decide (k = 17)) as [->|Hne].
    + rewrite scan_step_value in Hrun.
      destruct (Nat.leb_spec (path_len - 1) (length v)); [discriminate|].
      destruct (Ascii.eqb_spec a NUL) as [->|_]; [|discriminate].
      injection Hrun as <-. exists pre, v, []. rewrite Hdone.
      change (take (17 - 1) KEY) with KEY.
      rewrite <- !app_assoc. auto 10.
    + rewrite scan_step_key in Hrun by lia. discriminate.
  - rewrite scan_step_key in Hrun by lia.
    change (X509_USER_PROXY !!! 0) with NUL in Hrun.
    cbv beta iota delta [scan_next] in Hrun.
    carry_on p0 IH Hrun.
    destruct (Ascii.eqb_spec NUL a) as [Ha|_]; [right|left; auto].
    exists (done ++ [a]), []. simpl. rewrite app_nil_r.
    repeat split; auto; try lia.
    + right. exists done. rewrite Ha. reflexivity.
    + apply not_elem_of_nil.
  - destruct (decide (k = 17)) as [->|Hne].
    + rewrite scan_step_value in Hrun.
      destruct (Nat.leb_spec (path_len - 1) (length v)); [discriminate|].
      destruct (Ascii.eqb_spec a NUL) as [->|Ha].
      * injection Hrun as <-. exists pre, v, (b :: rest). rewrite Hdone.
        change (take (17 - 1) KEY) with KEY.
        rewrite <- !app_assoc. auto 10.
      * cbv beta iota delta [scan_next] in Hrun.
        carry_on p0 IH Hrun.
        right. exists pre, (v ++ [a]). simpl.
        rewrite Hdone, stores_snoc, length_app, <- !app_assoc. simpl.
        repeat split; auto; try lia.
        intros [Hin|Hin%list_elem_of_singleton]%elem_of_app;
          [exact (Hv Hin)|exact (Ha (eq_sym Hin))].
    + rewrite scan_step_key in Hrun by lia.
      cbv beta iota delta [scan_next] in Hrun.
      assert (v = []) as -> by (apply Hv0; lia).
      rewrite app_nil_r in Hdone.
      carry_on p0 IH Hrun.
      destruct (Ascii.eqb_spec (X509_USER_PROXY !!! k) a) as [Hka|_];
        [right|left; auto].
      exists pre, []. simpl. rewrite app_nil_r, Nat.sub_0_r.
      repeat split; auto; try lia.
      assert (KEY !! (k - 1) = Some a) as Hl.
      { destruct k as [|k]; [lia|]. simpl. rewrite Nat.sub_0_r.
        assert (k < length KEY) as Hlt by (change (length KEY) with 16; lia).
        apply lookup_lt_is_Some in Hlt as [x Hx].
        rewrite Hx. f_equal. rewrite <- Hka.
        symmetry. apply list_lookup_total_correct.
        change (X509_USER_PROXY !! S k) with ((KEY ++ [NUL]) !! k).
        apply lookup_app_l_Some, Hx. }
      rewrite Hdone, <- app_assoc. f_equal.
      destruct k as [|k']; [lia|].
      replace (S k' - 1) with k' in * by lia.
      symmetry. apply take_S_r, Hl.
Qed.

End ScannerFacts.

(** *** The scan of a whole record *)

Lemma scan_loop_length (path_len : nat) (rest : list ascii) (c : Z) (s : vars) :
  length (path (scan_loop path_len c rest s).2) = length (path s).
Proof.
  revert c s. induction rest as [|a rest IH]; intros c s; simpl.
  all: unfold scan_step.
  all: repeat case_match; simplify_eq; simpl; try reflexivity.
  all: try rewrite IH; simpl; try reflexivity; apply length_insert.
Qed.

Lemma scan_length (path_len : nat) (env p : list ascii) :
  length (scan path_len env p).2 = length p.
Proof.
  unfold scan.
  pose proof (scan_loop_length path_len env (int_of_char NUL) (mkVars 0 0 p))
    as Hl.
  destruct (scan_loop _ _ _ _) as [set_env s]. simpl in *.
  destruct set_env; [rewrite length_insert|]; exact Hl.
Qed.

(** The first assignment to the variable, after entries that depart
    from the key, is found and copied whole when it fits. *)
Lemma scan_first_assignment (path_len : nat) (es : list (list ascii))
    (v post p : list ascii) :
  Forall other_entry es -> (NUL ∉ v) ->
  length v < path_len - 1 -> path_len <= length p ->
  exists buf,
    scan path_len (entries es ++ KEY ++ v ++ NUL :: post) p = (true, buf) /\
    cstr buf = v.
Proof.
  intros Hes Hv Hlen Hp. unfold scan.
  rewrite scan_loop_start, scan_other_entries, scan_key, scan_value
    by (assumption || (simpl; lia)).
  simpl. eexists. split; [reflexivity|].
  apply terminated_value; [exact Hv|lia].
Qed.

(** The first assignment to the variable makes the scan fail when its
    value has [path_len - 1] bytes or more, whatever follows. *)
Lemma scan_overlong (path_len : nat) (es : list (list ascii))
    (v rest p : list ascii) :
  Forall other_entry es -> (NUL ∉ v) -> path_len - 1 <= length v ->
  (scan path_len (entries es ++ KEY ++ v ++ rest) p).1 = false.
Proof.
  intros Hes Hv Hlen. unfold scan.
  rewrite scan_loop_start, scan_other_entries, scan_key by assumption.
  pose proof (scan_value_too_long path_len v rest 0 p Hv ltac:(simpl; lia))
    as Hf.
  destruct (scan_next _ _ _) as [set_env s]. exact Hf.
Qed.

(** Whatever the scan returns is the whole value of an assignment to the
    variable that starts at an entry boundary. *)
Lemma scan_sound (path_len : nat) (env p buf : list ascii) :
  path_len <= length p ->
  scan path_len env p = (true, buf) ->
  exists pre v post,
    env = pre ++ KEY ++ v ++ NUL :: post /\ at_boundary pre /\
    (NUL ∉ v) /\ length v < path_len - 1 /\ cstr buf = v.
Proof.
  intros Hp. unfold scan. rewrite scan_loop_start.
  destruct env as [|a env]; [discriminate|]. simpl.
  destruct (scan_loop _ _ _ _) as [set_env s'] eqn:Hrun.
  destruct set_env; [|discriminate]. intros [= <-].
  apply (scan_loop_sound _ p env [] a) in Hrun as
    (pre & v & post & Heq & Hpre & Hv & Hlen & Hidx & Hpath).
  - exists pre, v, post. repeat split; try assumption.
    rewrite Hidx, Hpath. apply terminated_value; [exact Hv|lia].
  - right. exists [], []. simpl. repeat split; auto; try lia.
    + left. reflexivity.
    + apply not_elem_of_nil.
Qed.

(** ** System calls *)

Lemma set_euid_same (k : kernel) : set_euid (euid k) k = k.
Proof. destruct k; reflexivity. Qed.

Lemma set_egid_same (k : kernel) : set_egid (egid k) k = k.
Proof. destruct k; reflexivity. Qed.

(** [seteuid] and [setegid] return, leave one event, and change at most
    the effective id; they succeed when asked for the real or the saved
    id. *)
Lemma seteuid_shape (u : Z) (s : proc) :
  exists (ok : bool) (e' : Z),
    seteuid u s =
    Returned (if ok then 0 else -1)%Z
             (record (Seteuid u) ok (set_euid e' (kern s)) s) /\
    (valid_id u = true -> u = ruid (kern s) \/ u = suid (kern s) -> e' = u).
Proof.
  unfold seteuid. destruct (valid_id u && _) eqn:Hok.
  - exists true, u. split; [reflexivity|auto].
  - exists false, (euid (kern s)). rewrite set_euid_same.
    split; [reflexivity|]. intros Hv Hu. rewrite Hv in Hok. simpl in Hok.
    destruct Hu as [Hu|Hu]; rewrite <- Hu, Z.eqb_refl in Hok;
      rewrite ?orb_true_r in Hok; simpl in Hok; discriminate.
Qed.

Lemma setegid_shape (g : Z) (s : proc) :
  exists (ok : bool) (g' : Z),
    setegid g s =
    Returned (if ok then 0 else -1)%Z
             (record (Setegid g) ok (set_egid g' (kern s)) s) /\
    (valid_id g = true -> g = rgid (kern s) \/ g = sgid (kern s) -> g' = g).
Proof.
  unfold setegid. destruct (valid_id g && _) eqn:Hok.
  - exists true, g. split; [reflexivity|auto].
  - exists false, (egid (kern s)). rewrite set_egid_same.
    split; [reflexivity|]. intros Hv Hg. rewrite Hv in Hok. simpl in Hok.
    destruct Hg as [Hg|Hg]; rewrite <- Hg, Z.eqb_refl in Hok;
      rewrite ?orb_true_r in Hok; simpl in Hok; discriminate.
Qed.

Lemma to_uint_to_int (z : Z) : (0 <= z < 2 ^ 32)%Z -> to_uint (to_int z) = z.
Proof.
  intros Hz. unfold to_uint, to_int.
  rewrite Zminus_mod_idemp_l.
  replace (z + 2 ^ 31 - 2 ^ 31)%Z with z by lia.
  apply Z.mod_small. exact Hz.
Qed.

Lemma valid_id_below (z : Z) : (z < 2 ^ 32 - 1)%Z -> valid_id z = true.
Proof.
  intros Hz. unfold valid_id. apply negb_true_iff, Z.eqb_neq. lia.
Qed.

(** In a run, replace the next [seteuid] or [setegid] by its shape. *)
Ltac step_cred :=
  match goal with
  | |- context [seteuid ?u ?s] =>
      let ok := fresh "ok" in
      let e := fresh "e" in
      destruct (seteuid_shape u s) as (ok & e & -> & ?)
  | |- context [setegid ?g ?s] =>
      let ok := fresh "ok" in
      let e := fresh "g" in
      destruct (setegid_shape g s) as (ok & e & -> & ?)
  end.

(** A path put together from literals and [%d] holds no NUL. *)
Ltac no_NUL :=
  repeat first
    [ apply fmt_d_not_NUL
    | apply not_elem_of_app; split
    | (intros Hin; vm_compute in Hin;
       repeat (apply elem_of_cons in Hin as [Hin|Hin]; [discriminate|]);
       exact (not_elem_of_nil _ Hin)) ].

(** The paths the helper formats hold no NUL and fit in [PATH_MAX]. *)
Lemma environ_path_ok (pid : Z) :
  (NUL ∉ environ_path pid) /\ length (environ_path pid) < PATH_MAX.
Proof.
  split; [unfold environ_path; no_NUL|].
  unfold environ_path. rewrite !length_app.
  pose proof (fmt_d_length pid). unfold PATH_MAX. simpl. lia.
Qed.

Lemma root_path_ok (pid : Z) :
  (NUL ∉ root_path pid) /\ length (root_path pid) < PATH_MAX.
Proof.
  split; [unfold root_path; no_NUL|].
  unfold root_path. rewrite !length_app.
  pose proof (fmt_d_length pid). unfold PATH_MAX. simpl. lia.
Qed.

Lemma cwd_path_ok (pid : Z) :
  (NUL ∉ cwd_path pid) /\ length (cwd_path pid) < PATH_MAX.
Proof.
  split; [unfold cwd_path; no_NUL|].
  unfold cwd_path. rewrite !length_app.
  pose proof (fmt_d_length pid). unfold PATH_MAX. simpl. lia.
Qed.

Lemma default_path_ok (uid : Z) :
  (NUL ∉ default_path uid) /\ length (default_path uid) < PATH_MAX.
Proof.
  split; [unfold default_path; no_NUL|].
  unfold default_path. rewrite !length_app.
  pose proof (fmt_d_length uid). unfold PATH_MAX. simpl. lia.
Qed.

(** [snprintf] of such a path into a [PATH_MAX] buffer: the result is
    below [PATH_MAX] and the buffer holds the path as a C string. *)
Lemma snprintf_path (buf out : list ascii) :
  (NUL ∉ out) /\ length out < PATH_MAX -> length buf = PATH_MAX ->
  exists buf',
    snprintf buf PATH_MAX out = (Z.of_nat (length out), buf') /\
    cstr buf' = out /\ length buf' = PATH_MAX /\
    (Z.of_nat PATH_MAX <=? Z.of_nat (length out))%Z = false.
Proof.
  intros [Hout Hlen] Hbuf. eexists. split; [|split; [|split]].
  - apply snprintf_fits; [exact Hout|exact Hlen|lia].
  - apply cstr_app_NUL, Hout.
  - rewrite length_app. simpl. rewrite length_drop. lia.
  - apply Z.leb_gt. lia.
Qed.

(** ** [GetProxyFileFromEnv] *)

Section FromEnv.
Variable h : host.

(** With a [PATH_MAX] buffer the function returns: failure when the
    record cannot be opened, the result of the scan otherwise.  It leaves
    everything but the effective user id as it was, and its calls are
    [seteuid] and [fopen] only. *)
Lemma GetProxyFileFromEnv_spec (pid : Z) (buf : list ascii) (s : proc) :
  length buf = PATH_MAX ->
  let buf1 := (snprintf buf PATH_MAX (environ_path pid)).2 in
  let s1 := final (seteuid 0 s) in
  exists (e' : Z) (evs : list event),
    GetProxyFileFromEnv h pid PATH_MAX buf s =
    Returned
      match file_at h s1 (environ_path pid) with
      | Some env => scan PATH_MAX env buf1
      | None => (false, buf1)
      end
      (mkProc (set_euid e' (kern s)) (evs ++ trace s)) /\
    Forall (cred_or_fopen (environ_path pid)) evs /\
    (restorable (kern s) -> e' = euid (kern s)).
Proof.
  intros Hbuf buf1 s1. subst buf1 s1. unfold GetProxyFileFromEnv.
  change (PATH_MAX =? 0) with false. cbv iota.
  destruct (snprintf_path buf _ (environ_path_ok pid) Hbuf)
    as (buf1 & -> & Hcstr & Hlen1 & Hfit).
  change (to_int (Z.of_nat PATH_MAX)) with (Z.of_nat PATH_MAX).
  rewrite Hfit. cbv beta iota delta [bind geteuid ret]. cbn [snd].
  step_cred. simpl final.
  unfold fopen at 1. rewrite Hcstr.
  assert (forall (e0 : Z) (s2 : proc),
            ruid (kern s2) = ruid (kern s) -> suid (kern s2) = suid (kern s) ->
            (valid_id (to_uint (to_int (euid (kern s)))) = true ->
             to_uint (to_int (euid (kern s))) = ruid (kern s2) \/
             to_uint (to_int (euid (kern s))) = suid (kern s2) ->
             e0 = to_uint (to_int (euid (kern s)))) ->
            restorable (kern s) -> e0 = euid (kern s)) as Hback.
  { intros e0 s2 Hr Hs Hgo (He & _ & Hre & _).
    rewrite to_uint_to_int, Hr, Hs in Hgo by lia.
    apply Hgo; [apply valid_id_below; lia|exact Hre]. }
  destruct (file_at h _ (environ_path pid)) as [env|]; cbv beta iota.
  - unfold f_pos, f_data. rewrite drop_0.
    destruct (scan PATH_MAX env buf1) as [set_env path'].
    cbv beta iota. step_cred.
    exists e0. eexists [_; _; _]. split; [reflexivity|].
    split; [repeat constructor; reflexivity|].
    eapply Hback; [| |eassumption]; reflexivity.
  - step_cred.
    exists e0. eexists [_; _; _]. split; [reflexivity|].
    split; [repeat constructor; reflexivity|].
    eapply Hback; [| |eassumption]; reflexivity.
Qed.

End FromEnv.

(** *** Assignments to other variables depart from the key *)

Lemma departs_assignment (key k2 name rest : list ascii) :
  ("="%char ∉ key) -> ("="%char ∉ name) -> name <> key ->
  departs (key ++ "="%char :: k2) (name ++ "="%char :: rest) = true.
Proof.
  revert name. induction key as [|k key IH]; intros name Hk Hn Hne.
  - destruct name as [|a name]; [contradiction|]. cbn [departs app].
    destruct (Ascii.eqb_spec "="%char a) as [<-|_]; [|reflexivity].
    exfalso. apply Hn. left.
  - destruct name as [|a name]; cbn [departs app].
    + destruct (Ascii.eqb_spec k "="%char) as [->|_]; [|reflexivity].
      exfalso. apply Hk. left.
    + destruct (Ascii.eqb_spec k a) as [<-|_]; [|reflexivity].
      apply IH.
      * intros Hin. apply Hk. right. exact Hin.
      * intros Hin. apply Hn. right. exact Hin.
      * intros ->. apply Hne. reflexivity.
Qed.

(** An entry [name=value] for another variable is an [other_entry]. *)
Lemma assignment_other_entry (name value : list ascii) :
  (NUL ∉ name) -> (NUL ∉ value) -> ("="%char ∉ name) ->
  name <> lit "X509_USER_PROXY" ->
  other_entry (assignment name value).
Proof.
  intros Hn Hv He Hne. split.
  - unfold assignment. intros [Hin|[Hin|Hin]%elem_of_app]%elem_of_app.
    + exact (Hn Hin).
    + vm_compute in Hin. apply elem_of_cons in Hin as [Hc|Hin];
        [discriminate|exact (not_elem_of_nil _ Hin)].
    + exact (Hv Hin).
  - unfold assignment.
    change KEY with (lit "X509_USER_PROXY" ++ "="%char :: []).
    change (lit "=" ++ value) with ("="%char :: value).
    apply departs_assignment; [|exact He|exact Hne].
    intros Hin. vm_compute in Hin.
    repeat (apply elem_of_cons in Hin as [Hin|Hin]; [discriminate|]).
    exact (not_elem_of_nil _ Hin).
Qed.

(** ** What the specification says of the scanner *)

(** C1, for the first assignment and with the bound the code has.  When
    the environment record of the process is readable and its first
    assignment to X509_USER_PROXY, preceded only by entries that are
    neither such an assignment nor a cut-off key (every [name=value]
    for another name is of this kind), has a value of fewer than
    [PATH_MAX - 1] bytes, then [GetProxyFileFromEnv] succeeds and the
    C string it leaves in the caller's buffer is that value, byte for
    byte, whatever follows the entry. *)
Theorem GetProxyFileFromEnv_finds_first_assignment
    (h : host) (pid : Z) (buf : list ascii) (s : proc)
    (es : list (list ascii)) (v post : list ascii) :
  length buf = PATH_MAX ->
  (forall s', file_at h s' (environ_path pid) =
              Some (entries es ++ KEY ++ v ++ NUL :: post)) ->
  Forall other_entry es -> (NUL ∉ v) -> length v < PATH_MAX - 1 ->
  exists buf' s',
    GetProxyFileFromEnv h pid PATH_MAX buf s = Returned (true, buf') s' /\
    cstr buf' = v.
Proof.
  intros Hbuf Henv Hes Hv Hlen.
  destruct (GetProxyFileFromEnv_spec h pid buf s Hbuf)
    as (e' & evs & -> & _ & _).
  rewrite Henv.
  destruct (scan_first_assignment PATH_MAX es v post
              (snprintf buf PATH_MAX (environ_path pid)).2 Hes Hv Hlen)
    as (buf' & -> & Hc).
  { rewrite snprintf_length. lia. }
  eauto.
Qed.

Lemma GetProxyFileFromEnv_finds_first_assignment_witness :
  exists buf' s',
    GetProxyFileFromEnv
      (environ_host 42 (entries [lit "HOME=/home/alice"] ++ KEY ++
                        lit "/home/alice/.proxy" ++
                        NUL :: lit "PATH=/bin" ++ [NUL]))
      42 PATH_MAX some_buffer as_root = Returned (true, buf') s' /\
    cstr buf' = lit "/home/alice/.proxy".
Proof.
  apply (GetProxyFileFromEnv_finds_first_assignment _ 42 _ _
           [lit "HOME=/home/alice"] (lit "/home/alice/.proxy")
           (lit "PATH=/bin" ++ [NUL])).
  - reflexivity.
  - intros s'. vm_compute. reflexivity.
  - constructor; [|constructor].
    apply (assignment_other_entry (lit "HOME") (lit "/home/alice"));
      try (intros Hin; vm_compute in Hin;
           repeat (apply elem_of_cons in Hin as [Hin|Hin]; [discriminate|]);
           exact (not_elem_of_nil _ Hin)).
    discriminate.
  - intros Hin. vm_compute in Hin.
    repeat (apply elem_of_cons in Hin as [Hin|Hin]; [discriminate|]).
    exact (not_elem_of_nil _ Hin).
  - vm_compute. lia.
Defined.

(** C1 does not hold of every value shorter than [PATH_MAX], nor of
    every assignment in the record.  A value of [PATH_MAX - 1] bytes
    would fit the buffer with its NUL, but the guard
    [idx >= path_len - 1] is tested before the NUL is looked at, and
    the scan fails.  And when an assignment to the variable is preceded
    by another one, the value of the earlier one is stored. *)
Lemma GetProxyFileFromEnv_not_every_short_value :
  (let v := replicate (PATH_MAX - 1) "a"%char in
   length v < PATH_MAX /\
   match result (GetProxyFileFromEnv (environ_host 42 (KEY ++ v ++ [NUL]))
                   42 PATH_MAX some_buffer as_root) with
   | Some (found, _) => found = false
   | None => False
   end) /\
  (let env := entries [KEY ++ lit "/a"; KEY ++ lit "/b"] in
   match result (GetProxyFileFromEnv (environ_host 42 env)
                   42 PATH_MAX some_buffer as_root) with
   | Some (found, buf') => found = true /\ cstr buf' <> lit "/b"
   | None => False
   end).
Proof.
  split.
  - vm_compute. split; [lia|reflexivity].
  - vm_compute. split; [reflexivity|discriminate].
Qed.

(** Entries that are cut-off keys (here "X509", and the empty entry):
    the NUL that ends one is consumed as a mismatch, the entry boundary
    is missed, and the assignment that follows is passed over. *)
Example scan_after_cut_off_key :
  (scan PATH_MAX (entries [lit "X509"; KEY ++ lit "/a"]) some_buffer).1
    = false /\
  (scan PATH_MAX (entries [[]; KEY ++ lit "/a"]) some_buffer).1 = false /\
  (let '(found, buf') :=
     scan PATH_MAX (entries [lit "X509"; KEY ++ lit "/a"; KEY ++ lit "/b"])
          some_buffer in
   found = true /\ cstr buf' = lit "/b").
Proof. vm_compute. repeat split; reflexivity. Qed.

(** C5.  When the first assignment to X509_USER_PROXY in the record has
    a value of [PATH_MAX - 1] bytes or more (every value that does not
    fit a [PATH_MAX] buffer with its terminator is of this kind),
    [GetProxyFileFromEnv] returns false, whatever follows the value; the
    bytes copied so far are not taken as a path: [GetProxyFileInternal]
    goes on with the default path. *)
Theorem GetProxyFileFromEnv_overlong_value_fails
    (h : host) (pid : Z) (buf : list ascii) (s : proc)
    (es : list (list ascii)) (v rest : list ascii) :
  length buf = PATH_MAX ->
  (forall s', file_at h s' (environ_path pid) =
              Some (entries es ++ KEY ++ v ++ rest)) ->
  Forall other_entry es -> (NUL ∉ v) -> PATH_MAX - 1 <= length v ->
  (exists buf' s',
     GetProxyFileFromEnv h pid PATH_MAX buf s = Returned (false, buf') s') /\
  (forall uid, candidate h pid uid s = default_path uid).
Proof.
  intros Hbuf Henv Hes Hv Hlen. split.
  - destruct (GetProxyFileFromEnv_spec h pid buf s Hbuf)
      as (e' & evs & -> & _ & _).
    rewrite Henv.
    pose proof (scan_overlong PATH_MAX es v rest
                  (snprintf buf PATH_MAX (environ_path pid)).2 Hes Hv Hlen)
      as Hf.
    destruct (scan _ _ _) as [found buf']. simpl in Hf. subst found. eauto.
  - intros uid. unfold candidate, env_lookup. rewrite Henv.
    rewrite scan_overlong by assumption. reflexivity.
Qed.

Lemma GetProxyFileFromEnv_overlong_value_fails_witness :
  let h := environ_host 42 (entries [] ++ KEY ++ replicate 5000 "a"%char ++
                            [NUL]) in
  (exists buf' s',
     GetProxyFileFromEnv h 42 PATH_MAX some_buffer as_root =
     Returned (false, buf') s') /\
  (forall uid, candidate h 42 uid as_root = default_path uid).
Proof.
  apply (GetProxyFileFromEnv_overlong_value_fails _ 42 _ _
           [] (replicate 5000 "a"%char) [NUL]).
  - reflexivity.
  - intros s'. vm_compute. reflexivity.
  - constructor.
  - intros [Hc _]%elem_of_replicate. discriminate.
  - vm_compute. lia.
Defined.

(** C9, with the first assignment deciding the result rather than
    being returned always.  (1) Whenever [GetProxyFileFromEnv]
    succeeds, the record read holds, at its start or right after a NUL,
    the bytes
    "X509_USER_PROXY=" followed by exactly the string stored and a NUL:
    a name that only contains or ends with the key does not match.
    (2) The first assignment to the variable, preceded only by entries
    that are neither such an assignment nor a cut-off key, decides the
    result alone: its value is stored when it has fewer than
    [PATH_MAX - 1] bytes and the call fails otherwise; entries after it,
    assignments to the variable included, are not consulted. *)
Theorem GetProxyFileFromEnv_exact_key_first_assignment
    (h : host) (pid : Z) (buf : list ascii) (s : proc) :
  length buf = PATH_MAX ->
  (forall buf' s',
     GetProxyFileFromEnv h pid PATH_MAX buf s = Returned (true, buf') s' ->
     exists env pre post,
       file_at h (final (seteuid 0 s)) (environ_path pid) = Some env /\
       env = pre ++ KEY ++ cstr buf' ++ NUL :: post /\ at_boundary pre) /\
  (forall es v post,
     file_at h (final (seteuid 0 s)) (environ_path pid) =
       Some (entries es ++ KEY ++ v ++ NUL :: post) ->
     Forall other_entry es -> (NUL ∉ v) ->
     exists buf' s',
       GetProxyFileFromEnv h pid PATH_MAX buf s =
         Returned (length v <? PATH_MAX - 1, buf') s' /\
       (length v < PATH_MAX - 1 -> cstr buf' = v)).
Proof.
  intros Hbuf.
  destruct (GetProxyFileFromEnv_spec h pid buf s Hbuf)
    as (e' & evs & -> & _ & _).
  set (buf1 := (snprintf buf PATH_MAX (environ_path pid)).2).
  assert (PATH_MAX <= length buf1) as Hlen1
    by (unfold buf1; rewrite snprintf_length; lia).
  split.
  - intros buf' s' Hret.
    destruct (file_at h _ _) as [env|]; [|discriminate].
    injection Hret as Hscan _.
    apply scan_sound in Hscan as (pre & v & post & -> & Hpre & _ & _ & ->);
      [|exact Hlen1].
    exists (pre ++ KEY ++ v ++ NUL :: post), pre, post. auto.
  - intros es v post -> Hes Hv.
    destruct (Nat.ltb_spec (length v) (PATH_MAX - 1)) as [Hlt|Hge].
    + destruct (scan_first_assignment PATH_MAX es v post buf1 Hes Hv Hlt Hlen1)
        as (buf' & -> & Hc).
      eauto.
    + pose proof (scan_overlong PATH_MAX es v (NUL :: post) buf1 Hes Hv Hge)
        as Hf.
      destruct (scan _ _ _) as [found buf']. simpl in Hf. subst found.
      exists buf'. eexists. split; [reflexivity|]. lia.
Qed.

Lemma GetProxyFileFromEnv_exact_key_first_assignment_witness :
  exists buf' s',
    GetProxyFileFromEnv
      (environ_host 42 (entries [lit "HOME=/root"] ++ KEY ++ lit "/a" ++
                        NUL :: entries [KEY ++ lit "/b"]))
      42 PATH_MAX some_buffer as_root = Returned (true, buf') s' /\
    cstr buf' = lit "/a".
Proof.
  destruct (proj2 (GetProxyFileFromEnv_exact_key_first_assignment
                     (environ_host 42 (entries [lit "HOME=/root"] ++ KEY ++
                        lit "/a" ++ NUL :: entries [KEY ++ lit "/b"]))
                     42 some_buffer as_root eq_refl)
                  [lit "HOME=/root"] (lit "/a") (entries [KEY ++ lit "/b"]))
    as (buf' & s' & Hrun & Hc).
  - vm_compute. reflexivity.
  - constructor; [|constructor].
    apply (assignment_other_entry (lit "HOME") (lit "/root"));
      try (intros Hin; vm_compute in Hin;
           repeat (apply elem_of_cons in Hin as [Hin|Hin]; [discriminate|]);
           exact (not_elem_of_nil _ Hin)).
    discriminate.
  - intros Hin. vm_compute in Hin.
    repeat (apply elem_of_cons in Hin as [Hin|Hin]; [discriminate|]).
    exact (not_elem_of_nil _ Hin).
  - exists buf', s'. split; [exact Hrun|].
    apply Hc. vm_compute. lia.
Defined.

(** C9 does not hold when the first of several assignments has a value
    of [PATH_MAX - 1] bytes or more: the guard ends the scan with
    failure, and no value is returned, neither the first nor a later
    one. *)
Lemma GetProxyFileFromEnv_first_assignment_not_always_returned :
  let env := entries [KEY ++ replicate (PATH_MAX - 1) "a"%char;
                      KEY ++ lit "/b"] in
  match result (GetProxyFileFromEnv (environ_host 42 env)
                  42 PATH_MAX some_buffer as_root) with
  | Some (found, _) => found = false
  | None => False
  end.
Proof. vm_compute. reflexivity. Qed.

(** ** The descriptor table *)

Lemma lowest_free_spec (t : list (option dir)) :
  lowest_free t <= length t /\
  (lowest_free t < length t -> t !! lowest_free t = Some None).
Proof.
  induction t as [|[d|] t [IH1 IH2]]; simpl.
  - split; [lia|intros; lia].
  - split; [lia|]. intros Hlt. apply IH2. lia.
  - split; [lia|]. reflexivity.
Qed.

(** The descriptor [open] returns refers to the directory opened. *)
Lemma install_lookup (t t' : list (option dir)) (d : dir) (fd : nat) :
  install t d = (fd, t') -> fd_dir t' (Z.of_nat fd) = Some d.
Proof.
  unfold install, fd_dir. intros [= <- <-].
  destruct (Z.ltb_spec (Z.of_nat (lowest_free t)) 0); [lia|].
  rewrite Nat2Z.id.
  destruct (lowest_free_spec t) as [Hle _].
  destruct (Nat.ltb_spec (lowest_free t) (length t)).
  - rewrite list_lookup_insert_eq by lia. reflexivity.
  - rewrite lookup_app_r by lia.
    replace (lowest_free t - length t) with 0 by lia. reflexivity.
Qed.

(** A later [open] leaves the descriptors already open as they are. *)
Lemma install_keeps (t t' : list (option dir)) (d d0 : dir) (fd : Z)
    (n : nat) :
  fd_dir t fd = Some d0 -> install t d = (n, t') -> fd_dir t' fd = Some d0.
Proof.
  unfold install, fd_dir. intros Hfd [= <- <-].
  destruct (Z.ltb_spec fd 0); [discriminate|].
  destruct (t !! Z.to_nat fd) as [[d1|]|] eqn:Hl; try discriminate.
  simpl in Hfd. injection Hfd as ->.
  destruct (lowest_free_spec t) as [Hle Hfree].
  pose proof (lookup_lt_Some _ _ _ Hl) as Hlt.
  destruct (Nat.ltb_spec (lowest_free t) (length t)) as [Hin|Hout].
  - rewrite list_lookup_insert_ne, Hl; [reflexivity|].
    intros Heq. specialize (Hfree Hin). rewrite Heq, Hl in Hfree.
    discriminate.
  - rewrite lookup_app_l, Hl by lia. reflexivity.
Qed.

Lemma of_nat_not_minus_1 (n : nat) : (Z.of_nat n =? -1)%Z = false.
Proof. apply Z.eqb_neq. lia. Qed.

(** "." names the working directory, and the paths under /proc are
    neither "/" nor ".". *)
Lemma resolve_dot (h : host) (s : proc) :
  resolve h s (lit ".") = Some (cwd (kern s)).
Proof. reflexivity. Qed.

Lemma resolve_slash (h : host) (s : proc) :
  resolve h s (lit "/") = Some (root (kern s)).
Proof. reflexivity. Qed.

Lemma root_path_not_dot (pid : Z) : root_path pid <> lit ".".
Proof. unfold root_path. discriminate. Qed.

(** ** [GetProxyFileInternal] *)

Section Internal.
Variable h : host.

Lemma env_lookup_length (pid : Z) (s : proc) :
  length (env_lookup h pid s).2 = PATH_MAX.
Proof.
  unfold env_lookup. destruct (file_at h _ _).
  - rewrite scan_length, snprintf_length. apply length_uninit.
  - cbn [snd]. rewrite snprintf_length. apply length_uninit.
Qed.

(** The function is its lines 113-159 run on the candidate path and
    the two paths under /proc, after [GetProxyFileFromEnv] has made its
    calls: none of the three [snprintf] can overflow. *)
Lemma GetProxyFileInternal_split (pid uid gid : Z) (s : proc) :
  exists (e0 : Z) (evs0 : list event),
    Forall (cred_or_fopen (environ_path pid)) evs0 /\
    (restorable (kern s) -> e0 = euid (kern s)) /\
    GetProxyFileInternal h pid uid gid s =
    privileged_open h (candidate h pid uid s) (root_path pid) (cwd_path pid)
      uid gid (mkProc (set_euid e0 (kern s)) (evs0 ++ trace s)).
Proof.
  destruct (GetProxyFileFromEnv_spec h pid (uninit (junk h) PATH_MAX) s
              (length_uninit _ _)) as (e0 & evs0 & Heq & Hevs & He0).
  exists e0, evs0. split; [exact Hevs|]. split; [exact He0|].
  unfold GetProxyFileInternal, candidate.
  unfold bind at 1. rewrite Heq. fold (env_lookup h pid s).
  pose proof (env_lookup_length pid s) as Hlen.
  destruct (env_lookup h pid s) as [found path]. simpl in Hlen. cbn [fst snd].
  destruct (snprintf_path (uninit (junk h) PATH_MAX) _ (root_path_ok pid)
              (length_uninit _ _)) as (broot & -> & Hroot & _ & Hfit1).
  destruct (snprintf_path (uninit (junk h) PATH_MAX) _ (cwd_path_ok pid)
              (length_uninit _ _)) as (bcwd & -> & Hcwd & _ & Hfit2).
  destruct found.
  - change (Z.of_nat PATH_MAX <=? 0)%Z with false. cbv iota.
    rewrite Hfit1, Hfit2, Hroot, Hcwd. reflexivity.
  - destruct (snprintf_path path _ (default_path_ok uid) Hlen)
      as (bdef & -> & Hdef & _ & Hfit0).
    rewrite Hfit0, Hfit1, Hfit2, Hroot, Hcwd, Hdef. reflexivity.
Qed.

(** *** Running lines 113-159 call by call *)

(** [run H] takes the next call in the run [H : ... = o] and splits on
    what the host answers; [seteuid] and [setegid] are replaced by their
    shape.  The answers stay in the context. *)
Ltac tidy H :=
  cbv beta iota zeta in H;
  rewrite ?of_nat_not_minus_1 in H;
  change (-1 =? -1)%Z with true in H;
  change (0 =? -1)%Z with false in H;
  cbv beta iota delta [orb andb negb] in H.

(** Give the state a call has produced a name, and keep what it is as
    an equation, so that the terms of a run stay small. *)
Ltac name_state H :=
  lazymatch type of H with
  | context [record ?c ?ok ?k ?s] =>
      let sN := fresh "s" in
      let Hst := fresh "Hst" in
      remember (record c ok k s) as sN eqn:Hst in H
  end.

Ltac run H :=
  tidy H;
  lazymatch type of H with
  | context [seteuid ?u ?s] =>
      let Hs := fresh "Hs" in
      destruct (seteuid_shape u s) as (? & ? & Hs & ?); rewrite Hs in H;
      clear Hs
  | context [setegid ?g ?s] =>
      let Hs := fresh "Hs" in
      destruct (setegid_shape g s) as (? & ? & Hs & ?); rewrite Hs in H;
      clear Hs
  | context [open ?h ?p ?s] =>
      change (open h p s) with
        (match lookup_dir h s (Open p) p with
         | Some d =>
             let '(fd, t) := install (fds (kern s)) d in
             Returned (Z.of_nat fd)
                      (record (Open p) true (set_fds t (kern s)) s)
         | None => Returned (-1)%Z (record (Open p) false (kern s) s)
         end) in H;
      let Hopen := fresh "Hopen" in
      let Hinst := fresh "Hinst" in
      destruct (lookup_dir h s (Open p) p) eqn:Hopen;
      [destruct (install (fds (kern s)) _) eqn:Hinst|]
  | context [chdir ?h ?p ?s] =>
      change (chdir h p s) with
        (match lookup_dir h s (Chdir p) p with
         | Some d => Returned 0%Z (record (Chdir p) true (set_cwd d (kern s)) s)
         | None => Returned (-1)%Z (record (Chdir p) false (kern s) s)
         end) in H;
      let Hchdir := fresh "Hchdir" in
      destruct (lookup_dir h s (Chdir p) p) eqn:Hchdir
  | context [chroot ?h ?p ?s] =>
      change (chroot h p s) with
        (match lookup_dir h s (Chroot p) p with
         | Some d =>
             Returned 0%Z (record (Chroot p) true (set_root d (kern s)) s)
         | None => Returned (-1)%Z (record (Chroot p) false (kern s) s)
         end) in H;
      let Hchroot := fresh "Hchroot" in
      destruct (lookup_dir h s (Chroot p) p) eqn:Hchroot
  | context [fchdir ?h ?fd ?s] =>
      change (fchdir h fd s) with
        (match (if permits h s (Fchdir fd) then fd_dir (fds (kern s)) fd
                else None) with
         | Some d =>
             Returned 0%Z (record (Fchdir fd) true (set_cwd d (kern s)) s)
         | None => Returned (-1)%Z (record (Fchdir fd) false (kern s) s)
         end) in H;
      let Hfchdir := fresh "Hfchdir" in
      destruct (if permits h s (Fchdir fd) then fd_dir (fds (kern s)) fd
                else None) eqn:Hfchdir
  | context [fopen ?h ?p ?s] =>
      change (fopen h p s) with
        (match file_at h s p with
         | Some data =>
             Returned (Some (mkFILE data 0)) (record (Fopen p) true (kern s) s)
         | None => Returned None (record (Fopen p) false (kern s) s)
         end) in H;
      let Hfopen := fresh "Hfopen" in
      destruct (file_at h s p) eqn:Hfopen
  end;
  name_state H.

Ltac run_all H :=
  cbv beta iota zeta delta [privileged_open leave_root bind ret abort
                            geteuid getegid] in H;
  repeat run H; tidy H.

(** Read a component of a named state off the equations. *)
Ltac unwind :=
  repeat (match goal with
          | Hst : ?x = record _ _ _ _ |- context [?x] => rewrite Hst
          end;
          cbn [kern trace record root cwd fds euid egid ruid suid rgid sgid
               set_euid set_egid set_root set_cwd set_fds]).

Ltac unwind_in H :=
  repeat match goal with
         | Hst : ?x = record _ _ _ _ |- _ =>
             rewrite Hst in H;
             cbn [kern trace record root cwd fds euid egid ruid suid rgid sgid
                  set_euid set_egid set_root set_cwd set_fds] in H
         end.

Lemma lookup_dir_slash (s : proc) (c : syscall) (d : dir) :
  lookup_dir h s c (lit "/") = Some d -> d = root (kern s).
Proof.
  unfold lookup_dir. destruct (permits h s c); [|discriminate].
  rewrite resolve_slash. congruence.
Qed.

Lemma lookup_dir_dot (s : proc) (c : syscall) (d : dir) :
  lookup_dir h s c (lit ".") = Some d -> d = cwd (kern s).
Proof.
  unfold lookup_dir. destruct (permits h s c); [|discriminate].
  rewrite resolve_dot. congruence.
Qed.

Lemma permitted_some {A} (b : bool) (x : option A) (a : A) :
  (if b then x else None) = Some a -> x = Some a.
Proof. destruct b; [auto|discriminate]. Qed.

(** After [fd = open("/")] and [fd2 = open(".")] have succeeded, [fd]
    refers to the root and [fd2] to the working directory. *)
Lemma saved_descriptors (s1 s2 : proc) (t0 t1 t2 : list (option dir))
    (d d0 : dir) (n n0 : nat) :
  lookup_dir h s1 (Open (lit "/")) (lit "/") = Some d ->
  install t0 d = (n, t1) ->
  lookup_dir h s2 (Open (lit ".")) (lit ".") = Some d0 ->
  install t1 d0 = (n0, t2) ->
  fd_dir t2 (Z.of_nat n) = Some (root (kern s1)) /\
  fd_dir t2 (Z.of_nat n0) = Some (cwd (kern s2)).
Proof.
  intros ->%lookup_dir_slash Hi1 ->%lookup_dir_dot Hi2. split.
  - eapply install_keeps; [eapply install_lookup, Hi1|exact Hi2].
  - eapply install_lookup, Hi2.
Qed.

(** From the answers to the two [open]s in a run, what the two
    descriptors refer to, in terms of the state at the start. *)
Ltac descriptors :=
  match goal with
  | Ho1 : lookup_dir _ ?s1 (Open (lit "/")) _ = Some ?d,
    Hi1 : install _ ?d = (?n, ?t1),
    Ho2 : lookup_dir _ ?s2 (Open (lit ".")) _ = Some ?d0,
    Hi2 : install _ ?d0 = (?n0, ?t2) |- _ =>
      let Hfd := fresh "Hfd" in
      let Hfd2 := fresh "Hfd2" in
      unwind_in Hi1; unwind_in Hi2;
      destruct (saved_descriptors _ _ _ _ _ _ _ _ _ Ho1 Hi1 Ho2 Hi2)
        as [Hfd Hfd2];
      unwind_in Hfd; unwind_in Hfd2
  end.

(** Every way through lines 113-159 that returns leaves the root as it
    was. *)
Lemma privileged_open_root (path croot ccwd : list ascii) (uid gid : Z)
    (s : proc) (r : option FILE) (s' : proc) :
  privileged_open h path croot ccwd uid gid s = Returned r s' ->
  root (kern s') = root (kern s).
Proof.
  intros Hrun. run_all Hrun.
  all: try discriminate.
  all: injection Hrun as <- <-.
  all: unwind; try reflexivity.
  all: descriptors.
  all: apply lookup_dir_dot in Hchroot0; rewrite Hchroot0; unwind.
  all: apply permitted_some in Hfchdir; unwind_in Hfchdir.
  all: congruence.
Qed.

(** The events a run has added, read off the trace. *)
Ltac prefix_of l t :=
  lazymatch l with
  | t => constr:(@nil event)
  | ?e :: ?l' => let r := prefix_of l' t in constr:(e :: r)
  end.

Ltac new_events :=
  lazymatch goal with
  | |- exists evs, ?l = evs ++ ?t /\ _ =>
      let evs := prefix_of l t in
      exists evs; split; [reflexivity|]
  end.

(** Split a membership in an explicit list into its cases. *)
Ltac members H :=
  repeat (apply elem_of_cons in H as [->|H]);
  [..|exact (False_ind _ (not_elem_of_nil _ H))].

(** Once lines 113-159 have entered the other root, a step of the way
    back that fails is the last call the process makes: it does not
    return. *)
Lemma privileged_open_reversal (path croot ccwd : list ascii) (uid gid : Z)
    (s : proc) :
  croot <> lit "." ->
  let o := privileged_open h path croot ccwd uid gid s in
  exists evs,
    trace (final o) = evs ++ trace s /\
    ((exists e, e ∈ evs /\ ev_call e = Chroot croot /\ ev_ok e = true) ->
     (exists e, e ∈ evs /\ reversal_failed e) ->
     returned o = false /\
     exists e evs', evs = e :: evs' /\ reversal_failed e).
Proof.
  intros Hdot o. remember o as o' eqn:Hrun. subst o. symmetry in Hrun.
  run_all Hrun. all: subst o'; cbn [final returned]; unwind; new_events.
  all: intros (e & Hin & Hc & Hok) (e' & Hin' & Hfail & Hcall).
  all: members Hin; cbn [ev_call ev_ok] in Hc, Hok; try discriminate.
  all: try (injection Hc as Hc; congruence).
  all: try (split; [reflexivity|]; eexists _, _; split; [reflexivity|];
            split; [reflexivity|]; cbn [ev_call]; eauto).
  all: members Hin'; cbn [ev_call ev_ok] in Hfail, Hcall; try discriminate.
  all: destruct Hcall as [Hcall|[fd Hcall]]; discriminate.
Qed.

(** Every way through lines 113-159 that returns leaves the working
    directory as it was, but one: when [chdir] to the directory of the
    target succeeds and [chroot] fails, the way back is [fchdir(fd)],
    to the saved root, and the function returns [NULL] from there. *)
Lemma privileged_open_cwd (path croot ccwd : list ascii) (uid gid : Z)
    (s : proc) (r : option FILE) (s' : proc) :
  privileged_open h path croot ccwd uid gid s = Returned r s' ->
  cwd (kern s') = cwd (kern s) \/
  (r = None /\ cwd (kern s') = root (kern s) /\
   exists e, e ∈ trace s' /\ ev_call e = Chroot croot /\ ev_ok e = false).
Proof.
  intros Hrun. run_all Hrun.
  all: try discriminate.
  all: injection Hrun as <- <-.
  all: unwind; try (left; reflexivity).
  all: descriptors.
  all: try (left; apply permitted_some in Hfchdir0; unwind_in Hfchdir0;
            congruence).
  right. split; [reflexivity|]. split.
  - apply permitted_some in Hfchdir. unwind_in Hfchdir. congruence.
  - eexists. split; [do 2 right; left|split; reflexivity].
Qed.

(** Every way through lines 113-159 that returns ends with the
    effective ids put back, when they can be gone back to. *)
Lemma privileged_open_creds (path croot ccwd : list ascii) (uid gid : Z)
    (s : proc) (r : option FILE) (s' : proc) :
  restorable (kern s) ->
  privileged_open h path croot ccwd uid gid s = Returned r s' ->
  euid (kern s') = euid (kern s) /\ egid (kern s') = egid (kern s).
Proof.
  intros (He & Hg & Hre & Hrg) Hrun. run_all Hrun.
  all: try discriminate.
  all: injection Hrun as <- <-.
  all: unwind; split; try reflexivity.
  all: match goal with
       | |- ?x = _ =>
           match goal with
           | H : valid_id _ = true -> _ -> x = _ |- _ =>
               unwind_in H; rewrite to_uint_to_int in H by lia;
               apply H; [apply valid_id_below; lia|assumption]
           end
       end.
Qed.

(** The only file lines 113-159 try to open is the candidate path. *)
Lemma privileged_open_fopen (path croot ccwd : list ascii) (uid gid : Z)
    (s : proc) :
  let o := privileged_open h path croot ccwd uid gid s in
  exists evs,
    trace (final o) = evs ++ trace s /\
    Forall (fun e => forall p, ev_call e = Fopen p -> p = path) evs.
Proof.
  intros o. remember o as o' eqn:Hrun. subst o. symmetry in Hrun.
  run_all Hrun. all: subst o'; cbn [final returned]; unwind; new_events.
  all: repeat constructor; cbn [ev_call]; congruence.
Qed.

(** A handle returned by lines 113-159 is the one [fopen] of the
    candidate path gave: it is at the start of the file, and its bytes
    are those the path named when it was opened. *)
Lemma privileged_open_file (path croot ccwd : list ascii) (uid gid : Z)
    (s : proc) (fp : FILE) (s' : proc) :
  privileged_open h path croot ccwd uid gid s = Returned (Some fp) s' ->
  f_pos fp = 0 /\
  exists evs_after s_open,
    trace s' = evs_after ++ mkEvent (Fopen path) true (kern s_open)
                            :: trace s_open /\
    file_at h s_open path = Some (f_data fp).
Proof.
  intros Hrun. run_all Hrun.
  all: try discriminate.
  all: injection Hrun as <- <-.
  all: split; [reflexivity|].
  all: match goal with
       | Hf : file_at _ ?s_open _ = Some _ |- _ =>
           eexists; exists s_open; split; [|exact Hf]
       end.
  all: unwind.
  all: lazymatch goal with
       | |- ?l = ?evs ++ ?t => let p := prefix_of l t in unify evs p
       end; reflexivity.
Qed.

(** When it is [chdir] to the directory of the target that fails,
    lines 113-159 go on without changing root or
    directory, open the candidate path with the root and working
    directory of the call, and return what [fopen] gave. *)
Lemma privileged_open_chdir_refused
    (path croot ccwd : list ascii) (uid gid : Z) (s : proc) :
  let o := privileged_open h path croot ccwd uid gid s in
  (exists e, e ∈ trace (final o) /\ ev_call e = Chdir ccwd /\
             ev_ok e = false) ->
  (forall e, e ∈ trace s -> ev_call e <> Chdir ccwd) ->
  returned o = true /\
  exists e, e ∈ trace (final o) /\ ev_call e = Fopen path /\
            root (ev_at e) = root (kern s) /\ cwd (ev_at e) = cwd (kern s) /\
            root (kern (final o)) = root (kern s) /\
            cwd (kern (final o)) = cwd (kern s).
Proof.
  intros o (e & Hin & Hc & Hok) Hold.
  remember o as o' eqn:Hrun. subst o. symmetry in Hrun.
  run_all Hrun. all: subst o'; cbn [final returned] in *.
  all: revert Hin; unwind; intros Hin.
  all: repeat (apply elem_of_cons in Hin as [->|Hin];
               [cbn [ev_call ev_ok] in Hc, Hok; try discriminate|]).
  all: try (exfalso; exact (Hold _ Hin Hc)).
  all: split; [reflexivity|].
  all: eexists; split; [do 3 right; left|]; cbn [ev_call ev_at].
  all: unwind; auto.
Qed.

(** *** More about lines 113-159 *)

Ltac find_event :=
  first [ apply Exists_cons_hd; solve [repeat split; reflexivity]
        | apply Exists_cons_tl; find_event ].

(** Lines 113-159 end the process in one way only: a step of the way
    back, [fchdir] or [chroot(".")], fails, after [chdir] to the
    directory of the target has succeeded. *)
Lemma privileged_open_aborted (path croot ccwd : list ascii) (uid gid : Z)
    (s : proc) :
  let o := privileged_open h path croot ccwd uid gid s in
  returned o = false ->
  exists e evs,
    trace (final o) = e :: evs ++ trace s /\ reversal_failed e /\
    Exists (fun e' => ev_call e' = Chdir ccwd /\ ev_ok e' = true) evs.
Proof.
  intros o Hret. remember o as o' eqn:Hrun. subst o. symmetry in Hrun.
  run_all Hrun. all: subst o'; cbn [final returned] in *; try discriminate.
  all: unwind.
  all: eexists;
    lazymatch goal with
    | |- exists evs, _ :: ?l = _ :: evs ++ ?t /\ _ =>
        let p := prefix_of l t in exists p
    end.
  all: split; [reflexivity|].
  all: split; [split; [reflexivity|cbn [ev_call]; eauto]|find_event].
Qed.

Lemma install_fresh (t t' : list (option dir)) (d : dir) (n : nat) :
  install t d = (n, t') -> fd_dir t (Z.of_nat n) = None.
Proof.
  unfold install, fd_dir. intros [= <- _].
  destruct (Z.ltb_spec (Z.of_nat (lowest_free t)) 0); [reflexivity|].
  rewrite Nat2Z.id. destruct (lowest_free_spec t) as [Hle Hfree].
  destruct (decide (lowest_free t < length t)) as [Hlt|Hge].
  - rewrite (Hfree Hlt). reflexivity.
  - rewrite lookup_ge_None_2 by lia. reflexivity.
Qed.

Lemma install_only (t t' : list (option dir)) (d : dir) (n : nat) (fd : Z) :
  install t d = (n, t') -> fd_dir t' fd = None -> fd_dir t fd = None.
Proof.
  intros Hi Hnone. destruct (fd_dir t fd) as [d0|] eqn:Hfd; [|reflexivity].
  rewrite (install_keeps _ _ _ _ _ _ Hfd Hi) in Hnone. discriminate.
Qed.

Ltac find_failed_open :=
  first [ apply Exists_cons_hd;
          solve [split; [eexists; reflexivity|reflexivity]]
        | apply Exists_cons_tl; find_failed_open ].

(** Lines 113-159 close neither [fd] nor [fd2]: when both [open]s
    succeed, two descriptors that were not in use at the start refer,
    at the end, to the root and to the working directory of the start,
    and every directory descriptor of the start is as it was. *)
Lemma privileged_open_keeps_descriptors (path croot ccwd : list ascii)
    (uid gid : Z) (s : proc) :
  let o := privileged_open h path croot ccwd uid gid s in
  exists evs,
    trace (final o) = evs ++ trace s /\
    (~ Exists open_failed evs ->
     exists fd fd2 : nat,
       fd <> fd2 /\
       fd_dir (fds (kern s)) (Z.of_nat fd) = None /\
       fd_dir (fds (kern s)) (Z.of_nat fd2) = None /\
       fd_dir (fds (kern (final o))) (Z.of_nat fd) = Some (root (kern s)) /\
       fd_dir (fds (kern (final o))) (Z.of_nat fd2) = Some (cwd (kern s)) /\
       forall n d, fd_dir (fds (kern s)) n = Some d ->
                   fd_dir (fds (kern (final o))) n = Some d).
Proof.
  intros o. remember o as o' eqn:Hrun. subst o. symmetry in Hrun.
  run_all Hrun. all: subst o'; cbn [final returned]; unwind; new_events.
  all: intros Hno.
  all: try (exfalso; apply Hno; find_failed_open).
  all: clear Hno; descriptors.
  all: match goal with
       | Hi1 : install _ _ = (?n, ?l), Hi2 : install ?l _ = (?n0, _) |- _ =>
           exists n, n0;
           pose proof (install_lookup _ _ _ _ Hi1) as Hin;
           pose proof (install_fresh _ _ _ _ Hi1) as Hfree;
           pose proof (install_fresh _ _ _ _ Hi2) as Hfree2;
           pose proof (install_only _ _ _ _ _ Hi1 Hfree2) as Hfree0;
           split; [intros Heq; rewrite Heq in Hin; congruence|];
           repeat (split; [assumption|]);
           intros m dm Hm;
           exact (install_keeps _ _ _ _ _ _
                    (install_keeps _ _ _ _ _ _ Hm Hi1) Hi2)
       end.
Qed.

(** Lines 113-159 always get as far as the two [open]s. *)
Lemma privileged_open_reaches_open (path croot ccwd : list ascii)
    (uid gid : Z) (s : proc) :
  let o := privileged_open h path croot ccwd uid gid s in
  exists evs,
    trace (final o) = evs ++ trace s /\
    Exists (fun e => ev_call e = Open (lit "/")) evs /\
    Exists (fun e => ev_call e = Open (lit ".")) evs.
Proof.
  intros o. remember o as o' eqn:Hrun. subst o. symmetry in Hrun.
  run_all Hrun. all: subst o'; cbn [final returned]; unwind; new_events.
  all: split; find_event.
Qed.

(** When one of the two [open]s fails, lines 113-159 return [NULL]
    after [seteuid], having called nothing but [seteuid] and [open]:
    the candidate path is not opened. *)
Lemma privileged_open_open_refused (path croot ccwd : list ascii)
    (uid gid : Z) (s : proc) :
  let o := privileged_open h path croot ccwd uid gid s in
  exists evs,
    trace (final o) = evs ++ trace s /\
    (Exists open_failed evs ->
     (exists s', o = Returned None s') /\
     Forall (fun e => match ev_call e with
                      | Seteuid _ | Open _ => True
                      | _ => False
                      end) evs /\
     root (kern (final o)) = root (kern s) /\
     cwd (kern (final o)) = cwd (kern s) /\
     egid (kern (final o)) = egid (kern s)).
Proof.
  intros o. remember o as o' eqn:Hrun. subst o. symmetry in Hrun.
  run_all Hrun. all: subst o'; cbn [final returned]; unwind; new_events.
  all: intros Hex.
  all: try (repeat (apply Exists_cons in Hex as [[[p Hc] Hok]|Hex];
                    [cbn [ev_call ev_ok] in Hc, Hok; discriminate|]);
            apply Exists_nil in Hex; contradiction).
  all: clear Hex; split; [eexists; reflexivity|].
  all: split; [repeat constructor|auto].
Qed.

Lemma lookup_dir_other (s : proc) (c : syscall) (p : list ascii) (d : dir) :
  p <> lit "/" -> p <> lit "." ->
  lookup_dir h s c p = Some d -> dir_at h s p = Some d.
Proof.
  intros H1 H2. unfold lookup_dir, resolve.
  destruct (permits h s c); [|discriminate].
  destruct (decide (p = lit "/")); [contradiction|].
  destruct (decide (p = lit ".")); [contradiction|]. auto.
Qed.

(** When [chdir] to the directory of the target fails, lines 113-159
    call neither [chroot] nor [fchdir], open the candidate path under
    the root and in the directory of the call, and return what [fopen]
    gave. *)
Lemma privileged_open_chdir_refused_calls (path croot ccwd : list ascii)
    (uid gid : Z) (s : proc) :
  let o := privileged_open h path croot ccwd uid gid s in
  exists evs,
    trace (final o) = evs ++ trace s /\
    (Exists (fun e => ev_call e = Chdir ccwd /\ ev_ok e = false) evs ->
     Forall (fun e => stays_put e \/
                      (ev_call e = Chdir ccwd /\ ev_ok e = false)) evs /\
     exists s_open s',
       o = Returned ((fun data => mkFILE data 0) <$> file_at h s_open path)
                    s' /\
       Exists (fun e => ev_call e = Fopen path /\ ev_at e = kern s_open) evs /\
       root (kern s_open) = root (kern s) /\
       cwd (kern s_open) = cwd (kern s) /\
       root (kern s') = root (kern s) /\ cwd (kern s') = cwd (kern s)).
Proof.
  intros o. remember o as o' eqn:Hrun. subst o. symmetry in Hrun.
  run_all Hrun. all: subst o'; cbn [final returned]; unwind; new_events.
  all: intros Hex.
  all: try (repeat (apply Exists_cons in Hex as [[Hc Hok]|Hex];
                    [cbn [ev_call ev_ok] in Hc, Hok; discriminate|]);
            apply Exists_nil in Hex; contradiction).
  all: clear Hex; split;
    [repeat constructor; first [left; exact I|right; split; reflexivity]|].
  all: match goal with
       | Hf : file_at _ ?s_open _ = _ |- _ =>
           exists s_open; eexists; rewrite Hf
       end.
  all: unwind; split; [reflexivity|]; split; [find_event|]; auto.
Qed.

(** On a host where the two paths keep naming the same directories, the
    candidate path is opened either under the root and in the directory
    of the target, or, when [chdir] failed, under the root and in the
    directory of the call; never with one of each. *)
Lemma privileged_open_namespace (path croot ccwd : list ascii) (uid gid : Z)
    (s : proc) (dr dc : dir) :
  croot <> lit "/" -> croot <> lit "." ->
  ccwd <> lit "/" -> ccwd <> lit "." ->
  (forall st, dir_at h st croot = Some dr) ->
  (forall st, dir_at h st ccwd = Some dc) ->
  let o := privileged_open h path croot ccwd uid gid s in
  exists evs,
    trace (final o) = evs ++ trace s /\
    Forall (fun e => ev_call e = Fopen path ->
              (root (ev_at e) = dr /\ cwd (ev_at e) = dc) \/
              (root (ev_at e) = root (kern s) /\
               cwd (ev_at e) = cwd (kern s) /\
               Exists (fun e' => ev_call e' = Chdir ccwd /\ ev_ok e' = false)
                      evs)) evs.
Proof.
  intros Hr1 Hr2 Hc1 Hc2 Hdr Hdc o.
  remember o as o' eqn:Hrun. subst o. symmetry in Hrun.
  run_all Hrun. all: subst o'; cbn [final returned]; unwind; new_events.
  all: repeat (apply Forall_cons; split); try exact (List.Forall_nil _).
  all: cbn [ev_call ev_at]; intros Hcall; try discriminate.
  all: cbn [root cwd set_euid set_egid set_root set_cwd set_fds].
  all: first
    [ left;
      apply (lookup_dir_other _ _ _ _ Hr1 Hr2) in Hchroot;
      apply (lookup_dir_other _ _ _ _ Hc1 Hc2) in Hchdir;
      rewrite Hdr in Hchroot; rewrite Hdc in Hchdir;
      split; congruence
    | right; split; [reflexivity|]; split; [reflexivity|find_event] ].
Qed.

(** seteuid(2) and setegid(2) with the rule for a process whose
    effective user id is 0. *)
Lemma seteuid_rule (u : Z) (s : proc) :
  exists (ok : bool) (e' : Z),
    seteuid u s =
    Returned (if ok then 0 else -1)%Z
             (record (Seteuid u) ok (set_euid e' (kern s)) s) /\
    (valid_id u = true ->
     (euid (kern s) = 0 \/ u = ruid (kern s) \/ u = suid (kern s))%Z ->
     e' = u).
Proof.
  unfold seteuid. cbv zeta.
  destruct (valid_id u &&
            ((euid (kern s) =? 0) || (u =? ruid (kern s)) ||
             (u =? euid (kern s)) || (u =? suid (kern s)))%Z) eqn:Hgo.
  - exists true, u. auto.
  - exists false, (euid (kern s)). rewrite set_euid_same.
    split; [reflexivity|]. intros Hv Hcan. exfalso.
    rewrite Hv in Hgo. cbn [andb] in Hgo.
    repeat (apply orb_false_iff in Hgo as [Hgo ?]).
    repeat match goal with
           | H : (_ =? _)%Z = false |- _ => apply Z.eqb_neq in H
           end. lia.
Qed.

Lemma setegid_rule (g : Z) (s : proc) :
  exists (ok : bool) (g' : Z),
    setegid g s =
    Returned (if ok then 0 else -1)%Z
             (record (Setegid g) ok (set_egid g' (kern s)) s) /\
    (valid_id g = true ->
     (euid (kern s) = 0 \/ g = rgid (kern s) \/ g = sgid (kern s))%Z ->
     g' = g).
Proof.
  unfold setegid. cbv zeta.
  destruct (valid_id g &&
            ((euid (kern s) =? 0) || (g =? rgid (kern s)) ||
             (g =? egid (kern s)) || (g =? sgid (kern s)))%Z) eqn:Hgo.
  - exists true, g. auto.
  - exists false, (egid (kern s)). rewrite set_egid_same.
    split; [reflexivity|]. intros Hv Hcan. exfalso.
    rewrite Hv in Hgo. cbn [andb] in Hgo.
    repeat (apply orb_false_iff in Hgo as [Hgo ?]).
    repeat match goal with
           | H : (_ =? _)%Z = false |- _ => apply Z.eqb_neq in H
           end. lia.
Qed.

(** [run], with the rule for user 0 kept for [seteuid] and [setegid]. *)
Ltac run_ids H :=
  tidy H;
  lazymatch type of H with
  | context [seteuid ?u ?s] =>
      let Hs := fresh "Hs" in
      destruct (seteuid_rule u s) as (? & ? & Hs & ?); rewrite Hs in H;
      clear Hs; name_state H
  | context [setegid ?g ?s] =>
      let Hs := fresh "Hs" in
      destruct (setegid_rule g s) as (? & ? & Hs & ?); rewrite Hs in H;
      clear Hs; name_state H
  | _ => run H
  end.

(** Use what is known of the ids to settle what the calls that set
    them have done. *)
Ltac settle_ids :=
  repeat match goal with
         | Hc : valid_id _ = true -> _ -> _ = _ |- _ =>
             progress unwind_in Hc
         end;
  repeat match goal with
         | Hc : valid_id ?u = true -> ?P -> ?e = ?u |- _ =>
             let Hv := fresh "Hv" in
             let Hp := fresh "Hp" in
             assert (valid_id u = true) as Hv by (assumption || reflexivity);
             assert P as Hp by lia;
             specialize (Hc Hv Hp); clear Hv Hp; subst e
         end.

(** In a process that is able to take user id 0, the candidate path
    is opened with the user and group id of the target as effective
    ids. *)
Lemma privileged_open_ids (path croot ccwd : list ascii) (uid gid : Z)
    (s : proc) :
  (ruid (kern s) = 0 \/ suid (kern s) = 0)%Z ->
  valid_id uid = true -> valid_id gid = true ->
  let o := privileged_open h path croot ccwd uid gid s in
  exists evs,
    trace (final o) = evs ++ trace s /\
    Forall (fun e => forall p, ev_call e = Fopen p ->
                     p = path /\ euid (ev_at e) = uid /\ egid (ev_at e) = gid)
           evs.
Proof.
  intros Hroot Hu Hg o.
  remember o as o' eqn:Hrun. subst o. symmetry in Hrun.
  cbv beta iota zeta delta [privileged_open leave_root bind ret abort
                            geteuid getegid] in Hrun.
  repeat run_ids Hrun; tidy Hrun.
  all: subst o'; cbn [final returned]; unwind; new_events.
  all: repeat (apply Forall_cons; split); try exact (List.Forall_nil _).
  all: cbn [ev_call ev_at]; intros p Hcall; try discriminate.
  all: injection Hcall as <-.
  all: cbn [euid egid set_euid set_egid set_root set_cwd set_fds].
  all: settle_ids; repeat split; reflexivity.
Qed.

(** Without privilege [seteuid] and [setegid] change nothing, whether
    they succeed or fail. *)
Lemma seteuid_unprivileged (u : Z) (s : proc) :
  unprivileged (kern s) ->
  exists ok : bool,
    seteuid u s =
    Returned (if ok then 0 else -1)%Z (record (Seteuid u) ok (kern s) s).
Proof.
  intros (Hr & Hs & H0 & _). unfold seteuid. cbv zeta.
  destruct (valid_id u &&
            ((euid (kern s) =? 0) || (u =? ruid (kern s)) ||
             (u =? euid (kern s)) || (u =? suid (kern s)))%Z) eqn:Hgo.
  - exists true. assert (u = euid (kern s)) as Heq.
    { apply andb_true_iff in Hgo as [_ Hgo].
      repeat (apply orb_true_iff in Hgo as [Hgo|Hgo]);
        apply Z.eqb_eq in Hgo; lia. }
    subst u. rewrite set_euid_same. reflexivity.
  - exists false. reflexivity.
Qed.

Lemma setegid_unprivileged (g : Z) (s : proc) :
  unprivileged (kern s) ->
  exists ok : bool,
    setegid g s =
    Returned (if ok then 0 else -1)%Z (record (Setegid g) ok (kern s) s).
Proof.
  intros (_ & _ & H0 & Hr & Hs). unfold setegid. cbv zeta.
  destruct (valid_id g &&
            ((euid (kern s) =? 0) || (g =? rgid (kern s)) ||
             (g =? egid (kern s)) || (g =? sgid (kern s)))%Z) eqn:Hgo.
  - exists true. assert (g = egid (kern s)) as Heq.
    { apply andb_true_iff in Hgo as [_ Hgo].
      repeat (apply orb_true_iff in Hgo as [Hgo|Hgo]);
        apply Z.eqb_eq in Hgo; lia. }
    subst g. rewrite set_egid_same. reflexivity.
  - exists false. reflexivity.
Qed.

(** [run] for a process without privilege. *)
Ltac run_unprivileged Hun H :=
  tidy H;
  lazymatch type of H with
  | context [seteuid ?u ?s] =>
      let Hs := fresh "Hs" in
      let Hk := fresh "Hk" in
      assert (unprivileged (kern s)) as Hk
        by (unfold unprivileged; unwind; exact Hun);
      destruct (seteuid_unprivileged u s Hk) as (? & Hs); rewrite Hs in H;
      clear Hs Hk; name_state H
  | context [setegid ?g ?s] =>
      let Hs := fresh "Hs" in
      let Hk := fresh "Hk" in
      assert (unprivileged (kern s)) as Hk
        by (unfold unprivileged; unwind; exact Hun);
      destruct (setegid_unprivileged g s Hk) as (? & Hs); rewrite Hs in H;
      clear Hs Hk; name_state H
  | _ => run H
  end.

(** In a process without privilege lines 113-159 make every call, the
    [fopen] of the candidate path too, with the ids of the process, and
    end with them: that [seteuid] and [setegid] fail goes unnoticed. *)
Lemma privileged_open_unprivileged (path croot ccwd : list ascii)
    (uid gid : Z) (s : proc) :
  unprivileged (kern s) ->
  let o := privileged_open h path croot ccwd uid gid s in
  exists evs,
    trace (final o) = evs ++ trace s /\
    Forall (fun e => euid (ev_at e) = euid (kern s) /\
                     egid (ev_at e) = egid (kern s)) evs /\
    euid (kern (final o)) = euid (kern s) /\
    egid (kern (final o)) = egid (kern s).
Proof.
  intros Hun o.
  remember o as o' eqn:Hrun. subst o. symmetry in Hrun.
  cbv beta iota zeta delta [privileged_open leave_root bind ret abort
                            geteuid getegid] in Hrun.
  repeat run_unprivileged Hun Hrun; tidy Hrun.
  all: subst o'; cbn [final returned]; unwind; new_events.
  all: split; [|split; reflexivity].
  all: repeat (apply Forall_cons; split); try exact (List.Forall_nil _).
  all: split; reflexivity.
Qed.

(** When [chroot] to the root of the target fails, lines 113-159 go
    back by [fchdir(fd)], to the saved root, and return [NULL] from
    there, or end the process if that fails: the candidate path is not
    opened and [setegid] is not called. *)
Lemma privileged_open_chroot_refused (path croot ccwd : list ascii)
    (uid gid : Z) (s : proc) :
  croot <> lit "." ->
  let o := privileged_open h path croot ccwd uid gid s in
  exists evs,
    trace (final o) = evs ++ trace s /\
    (Exists (fun e => ev_call e = Chroot croot /\ ev_ok e = false) evs ->
     Forall (fun e => match ev_call e with
                      | Fopen _ | Setegid _ => False
                      | _ => True
                      end) evs /\
     forall r s', o = Returned r s' ->
                  r = None /\ cwd (kern s') = root (kern s) /\
                  root (kern s') = root (kern s)).
Proof.
  intros Hdot o. remember o as o' eqn:Hrun. subst o. symmetry in Hrun.
  run_all Hrun. all: subst o'; cbn [final returned]; unwind; new_events.
  all: intros Hex.
  all: try (repeat (apply Exists_cons in Hex as [[Hc Hok]|Hex];
                    [cbn [ev_call ev_ok] in Hc, Hok;
                     first [ discriminate
                           | injection Hc as Hc; exfalso; apply Hdot;
                             symmetry; exact Hc ]|]);
            apply Exists_nil in Hex; contradiction).
  all: clear Hex; split;
    [repeat (apply Forall_cons; split); try exact (List.Forall_nil _);
     exact I|].
  all: intros r s' Heq; try discriminate; injection Heq as <- <-.
  all: split; [reflexivity|].
  all: cbn [kern record root cwd set_euid set_egid set_root set_cwd set_fds].
  all: descriptors.
  all: apply permitted_some in Hfchdir; unwind_in Hfchdir.
  all: split; [congruence|reflexivity].
Qed.

End Internal.

(** ** What the specification says of [GetProxyFileInternal] *)

(** C4.  In every run of [GetProxyFileInternal]: when it returns, the
    root of the process is the root it had at the call; and when the
    process has entered the root of the target ([chroot] to
    /proc/<pid>/root succeeded) and a step of the way back ([fchdir] to
    a saved descriptor, [chroot(".")]) fails, the function does not
    return, and the failed step is the last call the process makes. *)
Theorem GetProxyFileInternal_never_returns_under_target_root
    (h : host) (pid uid gid : Z) (s : proc) :
  let o := GetProxyFileInternal h pid uid gid s in
  exists evs,
    trace (final o) = evs ++ trace s /\
    (returned o = true -> root (kern (final o)) = root (kern s)) /\
    (entered_target_root pid evs ->
     (exists e, e ∈ evs /\ reversal_failed e) ->
     returned o = false /\
     exists e evs', evs = e :: evs' /\ reversal_failed e).
Proof.
  intros o. subst o.
  destruct (GetProxyFileInternal_split h pid uid gid s)
    as (e0 & evs0 & Hevs0 & _ & ->).
  set (s0 := mkProc (set_euid e0 (kern s)) (evs0 ++ trace s)).
  destruct (privileged_open_reversal h (candidate h pid uid s)
              (root_path pid) (cwd_path pid) uid gid s0
              (root_path_not_dot pid)) as (evs1 & Htr & Hrev).
  exists (evs1 ++ evs0). split; [|split].
  - rewrite Htr. unfold s0. simpl. apply app_assoc.
  - destruct (privileged_open _ _ _ _ _ _ s0) as [r s'|s'] eqn:Hrun;
      [|discriminate].
    intros _. simpl. apply privileged_open_root in Hrun. exact Hrun.
  - assert (forall e, e ∈ evs0 ->
              (forall p, ev_call e <> Chroot p) /\
              (forall fd, ev_call e <> Fchdir fd)) as Hnot.
    { intros e Hin. rewrite Forall_forall in Hevs0.
      specialize (Hevs0 e Hin). unfold cred_or_fopen in Hevs0.
      destruct (ev_call e); try contradiction; split; discriminate. }
    intros (e & Hin & Hc & Hok) (e' & Hin' & Hfail & Hcall).
    apply elem_of_app in Hin as [Hin|Hin];
      [|exfalso; exact (proj1 (Hnot e Hin) _ Hc)].
    apply elem_of_app in Hin' as [Hin'|Hin'].
    2:{ exfalso. destruct Hcall as [Hcall|[fd Hcall]].
        - exact (proj1 (Hnot e' Hin') _ Hcall).
        - exact (proj2 (Hnot e' Hin') _ Hcall). }
    destruct Hrev as (Hret & e1 & evs' & -> & Hfail1).
    + exists e. auto.
    + exists e'. split; [exact Hin'|]. split; assumption.
    + split; [exact Hret|]. exists e1, (evs' ++ evs0). auto.
Qed.

Lemma GetProxyFileInternal_never_returns_under_target_root_witness :
  returned (GetProxyFileInternal
              (container_host 42 None proxy_1000 no_way_back)
              42 1000 1000 as_root) = false.
Proof.
  destruct (GetProxyFileInternal_never_returns_under_target_root
              (container_host 42 None proxy_1000 no_way_back)
              42 1000 1000 as_root) as (evs & Htr & _ & Hrev).
  rewrite app_nil_r in Htr. subst evs.
  refine (proj1 (Hrev _ _)).
  - vm_compute. eexists. split; [do 5 right; left|split; reflexivity].
  - vm_compute. eexists. split; [left|].
    split; [reflexivity|right; eexists; reflexivity].
Defined.

(** A handle [GetProxyFileInternal] returns is at the start of the file
    that the candidate path named when it was opened. *)
Lemma GetProxyFileInternal_file (h : host) (pid uid gid : Z) (s : proc)
    (fp : FILE) (s' : proc) :
  GetProxyFileInternal h pid uid gid s = Returned (Some fp) s' ->
  f_pos fp = 0 /\
  exists evs_after s_open,
    trace s' = evs_after ++
               mkEvent (Fopen (candidate h pid uid s)) true (kern s_open)
               :: trace s_open /\
    file_at h s_open (candidate h pid uid s) = Some (f_data fp).
Proof.
  destruct (GetProxyFileInternal_split h pid uid gid s)
    as (e0 & evs0 & _ & _ & ->).
  apply privileged_open_file.
Qed.

(** ** [GetX509Proxy] *)

(** With fuel above the number of unread bytes, the loop stops by itself,
    at end of file, having appended every unread byte. *)
Lemma read_loop_enough (fuel : nat) (fp : FILE) (proxy : list ascii) :
  unread fp < fuel ->
  read_loop fuel fp proxy =
  (mkFILE (f_data fp) (f_pos fp + unread fp),
   proxy ++ drop (f_pos fp) (f_data fp)).
Proof.
  revert fp proxy. induction fuel as [|fuel IH]; intros [data pos] proxy Hfuel;
    [lia|].
  unfold unread in *. cbn [read_loop fread f_data f_pos] in *.
  set (got := take kBufSize (drop pos data)).
  assert (length got = Nat.min kBufSize (length data - pos)) as Hgot
    by (unfold got; rewrite length_take, length_drop; reflexivity).
  destruct (Nat.eqb_spec (length got) kBufSize) as [Hfull|Hshort].
  - assert ((0 <? length got) = true) as ->
      by (apply Nat.ltb_lt; rewrite Hfull; unfold kBufSize; lia).
    rewrite IH by (cbn [f_data f_pos]; unfold kBufSize in *; lia).
    cbn [f_data f_pos]. f_equal.
    + f_equal. lia.
    + rewrite <- app_assoc. f_equal.
      transitivity (got ++ drop kBufSize (drop pos data));
        [|apply take_drop].
      f_equal. rewrite drop_drop, Hfull. reflexivity.
  - assert (got = drop pos data) as Hall.
    { unfold got. apply take_ge. rewrite length_drop. lia. }
    f_equal.
    + f_equal. lia.
    + destruct (Nat.ltb_spec 0 (length got)) as [_|Hzero].
      * rewrite Hall. reflexivity.
      * rewrite <- Hall. destruct got; [|simpl in Hzero; lia].
        symmetry. apply app_nil_r.
Qed.

(** C7, with what a read that fails leaves of it.  Whenever
    [GetX509Proxy] returns a handle, the string it filled holds the
    bytes that reading the file behind the handle delivered, from its
    start to the first read that came back short, and that file is the
    one the located path named when it was opened: the string is the
    start of the file, and all of it when no byte is lost to a read
    that fails.  The only other result is [NULL]. *)
Theorem GetX509Proxy_bytes_read_or_null
    (h : host) (authz_req : AuthzRequest) (proxy : list ascii) (s : proc) :
  match GetX509Proxy h authz_req proxy s with
  | Returned (Some fp, buf) s' =>
      let path := candidate h (req_pid authz_req) (req_uid authz_req) s in
      buf = f_data fp /\
      exists evs_after s_open,
        trace s' = evs_after ++ mkEvent (Fopen path) true (kern s_open)
                                :: trace s_open /\
        file_at h s_open path = Some buf /\
        whole_file h s_open path = Some (buf ++ lost_at h s_open path) /\
        (lost_at h s_open path = [] -> whole_file h s_open path = Some buf)
  | Returned (None, _) _ => True
  | Aborted _ => True
  end.
Proof.
  unfold GetX509Proxy, bind.
  destruct (GetProxyFileInternal _ _ _ _ s) as [[fp|] s'|s'] eqn:Hint;
    [|exact I..].
  apply GetProxyFileInternal_file in Hint as (Hpos & evs & s_open & Htr & Hf).
  rewrite read_loop_enough by lia. unfold ret. cbn [rewind f_data].
  rewrite Hpos, drop_0. cbn [app]. split; [reflexivity|].
  exists evs, s_open. split; [exact Htr|]. split; [exact Hf|].
  unfold whole_file. rewrite Hf. cbn [fmap option_fmap option_map].
  split; [reflexivity|]. intros ->. rewrite app_nil_r. reflexivity.
Qed.

(** C7 does not hold when a read of the located file fails.  The loop
    of lines 179-183 takes every short count for the end of the file
    and [ferror] is not asked: when the file holds "CERTIFICATE" and
    the read fails past the fourth byte, the caller gets a handle and
    the string "CERT". *)
Lemma GetX509Proxy_part_of_file_on_read_error :
  let h := read_error_host in
  match GetX509Proxy h (mkAuthzRequest 42 1000 1000 "u") (lit "old")
                     as_root with
  | Returned (Some fp, buf) s' =>
      candidate h 42 1000 as_root = lit "/tmp/x509up_u1000" /\
      (forall st, whole_file h st (lit "/tmp/x509up_u1000") =
                  Some (lit "CERTIFICATE")) /\
      buf = lit "CERT" /\ buf <> lit "CERTIFICATE"
  | _ => False
  end.
Proof.
  vm_compute. repeat split. discriminate.
Qed.

(** C8.  Whenever [GetX509Proxy] returns a handle, the handle is at
    position 0, and reading from it to end of file, which is what the
    loop of [GetX509Proxy] does, yields the bytes of the returned
    string. *)
Theorem GetX509Proxy_handle_rewound
    (h : host) (authz_req : AuthzRequest) (proxy : list ascii) (s : proc) :
  match GetX509Proxy h authz_req proxy s with
  | Returned (Some fp, buf) _ =>
      f_pos fp = 0 /\
      drop (f_pos fp) (f_data fp) = buf /\
      (read_loop (S (unread fp)) fp []).2 = buf
  | Returned (None, _) _ => True
  | Aborted _ => True
  end.
Proof.
  unfold GetX509Proxy, bind.
  destruct (GetProxyFileInternal _ _ _ _ s) as [[fp|] s'|s'] eqn:Hint;
    [|exact I..].
  apply GetProxyFileInternal_file in Hint as (Hpos & _).
  rewrite read_loop_enough by lia. unfold ret. cbn [rewind f_data f_pos].
  rewrite read_loop_enough by lia. cbn [f_data f_pos snd].
  rewrite Hpos, !drop_0. auto.
Qed.

(** C10.  Whenever [GetX509Proxy] returns [NULL], the caller's string is
    what it was at the call. *)
Theorem GetX509Proxy_null_keeps_proxy
    (h : host) (authz_req : AuthzRequest) (proxy : list ascii) (s : proc) :
  match GetX509Proxy h authz_req proxy s with
  | Returned (None, proxy') _ => proxy' = proxy
  | Returned (Some _, _) _ => True
  | Aborted _ => True
  end.
Proof.
  unfold GetX509Proxy, bind.
  destruct (GetProxyFileInternal _ _ _ _ s) as [[fp|] s'|s'];
    [|reflexivity|exact I].
  destruct (read_loop _ _ _). exact I.
Qed.

(** ** The branch taken when [chroot] fails *)

(** Every run of [GetProxyFileInternal] that returns leaves the
    effective user id, the effective group id and the root as they
    were, when the effective ids can be gone back to; and the working
    directory too, unless [chroot] has failed after [chdir] had
    succeeded: then it returns [NULL] from the root directory. *)
Lemma GetProxyFileInternal_frame (h : host) (pid uid gid : Z) (s : proc)
    (r : option FILE) (s' : proc) :
  restorable (kern s) ->
  GetProxyFileInternal h pid uid gid s = Returned r s' ->
  euid (kern s') = euid (kern s) /\ egid (kern s') = egid (kern s) /\
  root (kern s') = root (kern s) /\
  (cwd (kern s') = cwd (kern s) \/
   (r = None /\ cwd (kern s') = root (kern s) /\
    exists e, e ∈ trace s' /\ ev_call e = Chroot (root_path pid) /\
              ev_ok e = false)).
Proof.
  intros Hres.
  destruct (GetProxyFileInternal_split h pid uid gid s)
    as (e0 & evs0 & _ & He0 & ->).
  specialize (He0 Hres). subst e0.
  rewrite set_euid_same. intros Hrun.
  set (s0 := mkProc (kern s) (evs0 ++ trace s)) in Hrun.
  pose proof (privileged_open_creds h _ _ _ _ _ s0 _ _ Hres Hrun) as [He Hg].
  pose proof (privileged_open_root h _ _ _ _ _ s0 _ _ Hrun) as Hroot.
  pose proof (privileged_open_cwd h _ _ _ _ _ s0 _ _ Hrun) as Hcwd.
  auto.
Qed.

(** C2 does not hold of the branch taken when [chroot] fails after
    [chdir] has succeeded.  The helper runs without privilege in
    directory 2 under root 1; the target belongs to the same user, so
    [chdir] to /proc/42/cwd succeeds, and [chroot] is refused.  The
    way back is [fchdir(fd)], where [fd] is the descriptor of the root
    and not [fd2]: the function returns [NULL] with the working
    directory at the root, not where it was. *)
Theorem GetProxyFileInternal_chroot_refused_moves_cwd :
  match GetProxyFileInternal
          (container_host 42 (Some plain_environ) proxy_1000 no_chroot)
          42 1000 1000 as_user_1000 with
  | Returned r s' =>
      r = None /\
      cwd (kern as_user_1000) = 2 /\ cwd (kern s') = 1 /\
      root (kern s') = 1 /\
      euid (kern s') = euid (kern as_user_1000) /\
      egid (kern s') = egid (kern as_user_1000)
  | Aborted _ => False
  end.
Proof. vm_compute. repeat split; reflexivity. Qed.

(** C3 does not hold of that branch.  [chroot] is refused for lack of the
    capability, the default proxy of user 1000 exists in the helper's
    own namespace, and yet the call as a whole fails: it returns [NULL]
    and never tries to open the candidate path. *)
Theorem GetProxyFileInternal_chroot_refused_fails_call :
  let h := container_host 42 (Some plain_environ) proxy_1000 no_chroot in
  match GetProxyFileInternal h 42 1000 1000 as_user_1000 with
  | Returned r s' =>
      r = None /\
      file_at h s' (lit "/tmp/x509up_u1000") = Some (lit "CERTIFICATE") /\
      ~ called (Fopen (lit "/tmp/x509up_u1000")) s' /\
      exists e, e ∈ trace s' /\ ev_call e = Chroot (lit "/proc/42/root") /\
                ev_ok e = false
  | Aborted _ => False
  end.
Proof.
  vm_compute. split; [reflexivity|]. split; [reflexivity|]. split.
  - intros (e & Hin & Hc).
    repeat (apply elem_of_cons in Hin as [->|Hin]; [discriminate|]).
    exact (not_elem_of_nil _ Hin).
  - eexists. split; [do 2 right; left|]. split; reflexivity.
Qed.


(** ** The default path *)

(** For a user id that is an [int] as well, [%d] prints the id. *)
Lemma default_path_decimal (uid : Z) :
  (0 <= uid <= INT_MAX)%Z ->
  default_path uid = lit ("/tmp/x509up_u" +:+ pretty uid).
Proof.
  intros Hr. unfold default_path, fmt_d, to_int.
  rewrite lit_app. do 3 f_equal. unfold INT_MAX in Hr.
  rewrite Z.mod_small by lia. lia.
Qed.

(** When the record cannot be read, or the scan does not find the
    variable, the path [GetProxyFileInternal] goes on with is the
    default path, and no other file than the record and that path is
    opened. *)
Lemma GetProxyFileInternal_falls_back (h : host) (pid uid gid : Z) (s : proc) :
  (env_lookup h pid s).1 = false ->
  let o := GetProxyFileInternal h pid uid gid s in
  candidate h pid uid s = default_path uid /\
  exists evs,
    trace (final o) = evs ++ trace s /\
    Forall (fun e => forall p, ev_call e = Fopen p ->
                     p = environ_path pid \/ p = default_path uid) evs.
Proof.
  intros Hnot o. subst o.
  assert (candidate h pid uid s = default_path uid) as Hcand
    by (unfold candidate; rewrite Hnot; reflexivity).
  split; [exact Hcand|].
  destruct (GetProxyFileInternal_split h pid uid gid s)
    as (e0 & evs0 & Hevs0 & _ & ->).
  rewrite Hcand.
  destruct (privileged_open_fopen h (default_path uid) (root_path pid)
              (cwd_path pid) uid gid
              (mkProc (set_euid e0 (kern s)) (evs0 ++ trace s)))
    as (evs1 & Htr & Hevs1).
  exists (evs1 ++ evs0). split.
  - rewrite Htr. simpl. apply app_assoc.
  - apply Forall_app. split.
    + eapply Forall_impl; [exact Hevs1|]. intros e He p Hp. right. eauto.
    + eapply Forall_impl; [exact Hevs0|]. intros e He p Hp. left.
      unfold cred_or_fopen in He. rewrite Hp in He. exact He.
Qed.

(** The two cases of C6: the record cannot be read; the record holds
    no assignment to the variable. *)
Lemma env_lookup_unreadable (h : host) (pid : Z) (s : proc) :
  file_at h (final (seteuid 0 s)) (environ_path pid) = None ->
  (env_lookup h pid s).1 = false.
Proof. unfold env_lookup. intros ->. reflexivity. Qed.

Lemma env_lookup_absent (h : host) (pid : Z) (s : proc)
    (es : list (list ascii)) :
  file_at h (final (seteuid 0 s)) (environ_path pid) = Some (entries es) ->
  Forall other_entry es ->
  (env_lookup h pid s).1 = false.
Proof.
  unfold env_lookup. intros -> Hes. unfold scan.
  rewrite scan_loop_start.
  rewrite <- (app_nil_r (entries es)), scan_other_entries by exact Hes.
  reflexivity.
Qed.

(** C6 does not hold of user ids above [INT_MAX].  The target's user id
    is 4294967294, a [uid_t]; its environment record cannot be read.
    The format is [%d], so the id is printed as the [int] -2: the path
    that is opened is /tmp/x509up_u-2, and /tmp/x509up_u4294967294 is
    never tried. *)
Theorem GetProxyFileInternal_default_path_of_large_uid :
  let h := container_host 42 None (fun _ => None) nothing_refused in
  let s' := final (GetProxyFileInternal h 42 4294967294 1000 as_root) in
  candidate h 42 4294967294 as_root = lit "/tmp/x509up_u-2" /\
  called (Fopen (lit "/tmp/x509up_u-2")) s' /\
  ~ called (Fopen (lit "/tmp/x509up_u4294967294")) s'.
Proof.
  vm_compute. split; [reflexivity|]. split.
  - eexists. split; [do 6 right; left|reflexivity].
  - intros (e & Hin & Hc).
    repeat (apply elem_of_cons in Hin as [->|Hin]; [discriminate|]).
    exact (not_elem_of_nil _ Hin).
Qed.

(** The end-to-end scenarios of the specification. *)
Example scenario_environment_path :
  let h := container_host 42
             (Some (entries [lit "HOME=/home/alice";
                             lit "X509_USER_PROXY=/home/alice/.proxy"]))
             (fun p => if decide (p = lit "/home/alice/.proxy")
                       then Some (lit "PROXY BYTES") else None)
             nothing_refused in
  match GetX509Proxy h (mkAuthzRequest 42 1000 1000 "alice") (lit "old")
                     as_root with
  | Returned (Some fp, buf) s' =>
      buf = lit "PROXY BYTES" /\ f_pos fp = 0 /\
      kern s' = set_fds (fds (kern s')) (kern as_root) /\
      ~ called (Fopen (lit "/tmp/x509up_u1000")) s'
  | _ => False
  end.
Proof.
  vm_compute. repeat split.
  intros (e & Hin & Hc).
  repeat (apply elem_of_cons in Hin as [->|Hin]; [discriminate|]).
  exact (not_elem_of_nil _ Hin).
Qed.

Example scenario_fallback_absent :
  let h := container_host 42 (Some plain_environ) (fun _ => None)
                          nothing_refused in
  match GetX509Proxy h (mkAuthzRequest 42 1000 1000 "u") (lit "old")
                     as_root with
  | Returned (None, buf) s' =>
      buf = lit "old" /\ called (Fopen (lit "/tmp/x509up_u1000")) s'
  | _ => False
  end.
Proof.
  vm_compute. split; [reflexivity|].
  eexists. split; [do 6 right; left|reflexivity].
Qed.

(** * Further properties of the three functions *)

(** ** The loop of [GetProxyFileFromEnv] *)

(** Part of the key, read while the key is being matched. *)
Lemma scan_key_part (path_len n j : nat) (rest : list ascii) (i : nat)
    (p : list ascii) :
  j + n <= 16 ->
  scan_next path_len (take n (drop j KEY) ++ rest) (mkVars i (S j) p) =
  scan_next path_len rest (mkVars i (S (j + n)) p).
Proof.
  revert j. induction n as [|n IH]; intros j Hj.
  - simpl. rewrite Nat.add_0_r. reflexivity.
  - destruct (drop j KEY) as [|k key'] eqn:Hk.
    { apply (f_equal length) in Hk. rewrite length_drop in Hk.
      change (length KEY) with 16 in Hk. simpl in Hk. lia. }
    destruct (key_lookup _ _ _ Hk) as [Hl _].
    cbn [take app scan_next].
    rewrite scan_loop_eq, scan_step_key, Hl, Ascii.eqb_refl by lia.
    specialize (IH (S j)).
    rewrite (drop_S_cons _ _ _ _ Hk) in IH. rewrite IH by lia.
    do 3 f_equal. lia.
Qed.

Lemma key_byte_not_NUL (n : nat) :
  n < 16 -> Ascii.eqb (X509_USER_PROXY !!! S n) NUL = false.
Proof.
  intros Hn. do 16 (destruct n as [|n]; [reflexivity|]). lia.
Qed.

(** After a cut-off key the entry that follows is passed over, whatever
    it is, and the scan is at the start of the entry after it. *)
Lemma scan_cut_off (path_len : nat) (c e rest : list ascii) (i : nat)
    (p : list ascii) :
  cut_off_key c -> (NUL ∉ e) ->
  scan_next path_len (c ++ NUL :: e ++ NUL :: rest) (mkVars i 1 p) =
  scan_next path_len rest (mkVars i 1 p).
Proof.
  intros [Hne [k Hk]] He.
  assert (length c < 16) as Hlen.
  { apply (f_equal length) in Hk as Hl. rewrite length_app in Hl.
    change (length KEY) with 16 in Hl.
    destruct k as [|x k]; [|simpl in Hl; lia].
    rewrite app_nil_r in Hk. congruence. }
  assert (c = take (length c) (drop 0 KEY)) as Hc.
  { rewrite drop_0, Hk, take_app_length. reflexivity. }
  rewrite Hc at 1. rewrite scan_key_part by lia.
  cbn [scan_next]. change (0 + length c) with (length c).
  rewrite scan_loop_eq, scan_step_key, key_byte_not_NUL by lia.
  apply scan_skip, He.
Qed.

(** A value that the record ends in, without its NUL, is not found. *)
Lemma scan_value_eof (path_len : nat) (v : list ascii) (i : nat)
    (p : list ascii) :
  (NUL ∉ v) -> (scan_next path_len v (mkVars i 17 p)).1 = false.
Proof.
  revert i p. induction v as [|a v IH]; intros i p Hv; [reflexivity|].
  cbn [scan_next]. rewrite scan_loop_eq, scan_step_value.
  destruct (path_len - 1 <=? i); [reflexivity|].
  destruct (Ascii.eqb_spec a NUL) as [->|_].
  { exfalso. apply Hv. left. }
  apply IH. intros Hin. apply Hv. right. exact Hin.
Qed.

(** The loop stores below index [path_len - 1] only, and when it ends
    with success [idx] is below [path_len - 1] as well. *)
Lemma scan_loop_bounds (path_len : nat) (rest : list ascii) (c : Z)
    (s : vars) :
  let r := scan_loop path_len c rest s in
  drop (path_len - 1) (path r.2) = drop (path_len - 1) (path s) /\
  (r.1 = true -> idx r.2 < path_len - 1).
Proof.
  revert c s. induction rest as [|a rest IH]; intros c s; cbn [scan_loop].
  all: unfold scan_step.
  all: repeat case_match; simplify_eq; cbn [fst snd path idx].
  all: try (split; [reflexivity|intros; discriminate]).
  all: try (split; [reflexivity|intros _]; apply Nat.leb_gt; assumption).
  all: try (split; [apply drop_insert_lt, Nat.leb_gt; assumption
                   |intros; discriminate]).
  all: match goal with
       | |- context [scan_loop _ ?c' _ ?s'] =>
           destruct (IH c' s') as [Hd Hi]; cbn [path] in Hd
       end.
  all: split; [rewrite Hd|exact Hi]; try reflexivity.
  all: apply drop_insert_lt, Nat.leb_gt; assumption.
Qed.

Lemma cstr_no_NUL (l : list ascii) : NUL ∉ cstr l.
Proof.
  induction l as [|a l IH]; cbn [cstr]; [apply not_elem_of_nil|].
  destruct (Ascii.eqb_spec a NUL) as [->|Hne]; [apply not_elem_of_nil|].
  intros [Heq|Hin]%elem_of_cons; [congruence|exact (IH Hin)].
Qed.

Lemma starts_with_app (key e : list ascii) :
  starts_with key e = true -> e = key ++ drop (length key) e.
Proof.
  revert e. induction key as [|k key IH]; intros [|a e] H;
    cbn in H |- *; try reflexivity; try discriminate.
  apply andb_true_iff in H as [Hk He].
  apply Ascii.eqb_eq in Hk as ->. f_equal. apply IH, He.
Qed.

(** An entry that does not start with the key departs from it or stops
    inside it. *)
Lemma not_starting (key e : list ascii) :
  starts_with key e = false ->
  departs key e = true \/ (e <> key /\ e `prefix_of` key).
Proof.
  revert e. induction key as [|k key IH]; intros [|a e] H;
    cbn [starts_with departs] in H |- *; try discriminate.
  - right. split; [discriminate|apply prefix_nil].
  - destruct (Ascii.eqb_spec k a) as [->|Hne]; [|left; reflexivity].
    destruct (IH e H) as [Hd|[Hne Hp]]; [left; exact Hd|right].
    split; [congruence|apply prefix_cons, Hp].
Qed.

(** A record of whole entries none of which is a cut-off key, as the
    scanner sees it: entries it skips, then the first entry that starts
    with the key, if there is one. *)
Lemma tokenizer_lookup_split (es : list (list ascii)) :
  Forall (fun e => (NUL ∉ e) /\ ~ cut_off_key e) es ->
  match tokenizer_lookup es with
  | Some v =>
      exists es1 es2,
        es = es1 ++ (KEY ++ v) :: es2 /\ Forall other_entry es1 /\ (NUL ∉ v)
  | None => Forall other_entry es
  end.
Proof.
  induction 1 as [|e es [He Hcut] _ IH]; cbn [tokenizer_lookup];
    [constructor|].
  destruct (starts_with KEY e) eqn:Hs.
  - exists [], es. apply starts_with_app in Hs.
    split; [cbn [app]; congruence|]. split; [constructor|].
    intros Hin. apply He. rewrite Hs. apply elem_of_app. right. exact Hin.
  - assert (other_entry e) as Ho.
    { split; [exact He|]. destruct (not_starting _ _ Hs) as [Hd|Hc];
        [exact Hd|contradiction]. }
    destruct (tokenizer_lookup es) as [v|].
    + destruct IH as (es1 & es2 & -> & H1 & Hv).
      exists (e :: es1), es2. split; [reflexivity|].
      split; [constructor; assumption|exact Hv].
    + constructor; assumption.
Qed.

Lemma entries_app (es1 es2 : list (list ascii)) :
  entries (es1 ++ es2) = entries es1 ++ entries es2.
Proof. unfold entries. rewrite map_app, concat_app. reflexivity. Qed.

Lemma entries_cons (e : list ascii) (es : list (list ascii)) :
  entries (e :: es) = e ++ NUL :: entries es.
Proof. unfold entries. cbn [map concat]. rewrite <- app_assoc. reflexivity. Qed.

Ltac literal_free :=
  let Hin := fresh "Hin" in
  intros Hin; vm_compute in Hin;
  repeat (apply elem_of_cons in Hin as [Hin|Hin]; [discriminate|]);
  exact (not_elem_of_nil _ Hin).

(** X1. Whatever the record holds, the scan keeps the buffer's size,
    writes neither its last byte nor anything beyond it, and when it
    reports a value, the string it leaves is shorter than
    [path_len - 1] and holds no NUL. *)
Theorem scan_stays_within_buffer (path_len : nat) (env p : list ascii) :
  0 < path_len -> path_len <= length p ->
  let r := scan path_len env p in
  length r.2 = length p /\
  drop (path_len - 1) r.2 = drop (path_len - 1) p /\
  (r.1 = true -> length (cstr r.2) < path_len - 1).
Proof.
  intros Hpos Hlen r. split; [apply scan_length|]. split.
  - subst r. unfold scan.
    pose proof (scan_loop_bounds path_len env (int_of_char NUL)
                  (mkVars 0 0 p)) as [Hd Hi].
    destruct (scan_loop _ _ _ _) as [set_env s]. cbn [fst snd path] in *.
    destruct set_env; [|exact Hd].
    rewrite drop_insert_lt by (apply Hi; reflexivity). exact Hd.
  - intros Hr. destruct r as [set_env buf] eqn:Er. cbn [fst snd] in *.
    subst set_env.
    destruct (scan_sound _ _ _ _ Hlen Er) as (pre & v & post & _ & _ & _ & Hv & ->).
    exact Hv.
Qed.

Lemma scan_stays_within_buffer_witness :
  let p := lit "0123456789" in
  let r := scan 8 (KEY ++ lit "/a/b" ++ [NUL]) p in
  length r.2 = 10 /\ drop 7 r.2 = lit "789" /\
  (r.1 = true -> length (cstr r.2) < 7).
Proof.
  apply (scan_stays_within_buffer 8 (KEY ++ lit "/a/b" ++ [NUL])
           (lit "0123456789")); vm_compute; lia.
Defined.

(** X2. A value the record ends in, with no NUL after it, is not
    reported: the scan of entries other than the variable's followed by
    "X509_USER_PROXY=" and bytes up to end of file returns false. *)
Theorem scan_unterminated_value_fails (path_len : nat)
    (es : list (list ascii)) (v p : list ascii) :
  Forall other_entry es -> (NUL ∉ v) ->
  (scan path_len (entries es ++ KEY ++ v) p).1 = false.
Proof.
  intros Hes Hv. unfold scan.
  rewrite scan_loop_start, scan_other_entries, scan_key by assumption.
  pose proof (scan_value_eof path_len v 0 p Hv) as Hf.
  destruct (scan_next _ _ _) as [set_env s]. exact Hf.
Qed.

Lemma scan_unterminated_value_fails_witness :
  (scan PATH_MAX (entries [lit "HOME=/root"] ++ KEY ++ lit "/tmp/proxy")
        some_buffer).1 = false.
Proof.
  apply (scan_unterminated_value_fails PATH_MAX [lit "HOME=/root"]
           (lit "/tmp/proxy") some_buffer).
  - constructor; [|constructor]. split; [literal_free|reflexivity].
  - literal_free.
Defined.

(** X3. A record made of entries none of which is an assignment to the
    variable or a cut-off key leaves the buffer as it was and yields
    false. *)
Theorem scan_absent_variable (path_len : nat) (es : list (list ascii))
    (p : list ascii) :
  Forall other_entry es -> scan path_len (entries es) p = (false, p).
Proof.
  intros Hes. unfold scan.
  rewrite scan_loop_start, <- (app_nil_r (entries es)),
    scan_other_entries by assumption.
  reflexivity.
Qed.

Lemma scan_absent_variable_witness :
  scan PATH_MAX plain_environ some_buffer = (false, some_buffer).
Proof.
  apply (scan_absent_variable PATH_MAX
           [lit "HOME=/home/u"; lit "PATH=/bin"] some_buffer).
  repeat constructor; literal_free.
Defined.

(** X4. An entry that is a proper prefix of "X509_USER_PROXY=" (the
    empty entry among them) hides the entry after it: that entry is
    skipped whatever it holds, an assignment to the variable included,
    and the scan goes on as if the record began after it. *)
Theorem scan_cut_off_key_hides_next_entry (path_len : nat)
    (es : list (list ascii)) (c e rest p : list ascii) :
  Forall other_entry es -> cut_off_key c -> (NUL ∉ e) ->
  scan path_len (entries es ++ c ++ NUL :: e ++ NUL :: rest) p =
  scan path_len rest p.
Proof.
  intros Hes Hc He. unfold scan.
  rewrite !scan_loop_start, scan_other_entries, scan_cut_off by assumption.
  reflexivity.
Qed.

Lemma scan_cut_off_key_hides_next_entry_witness :
  scan PATH_MAX (entries [] ++ lit "X509" ++
                 NUL :: (KEY ++ lit "/tmp/proxy") ++ NUL :: plain_environ)
       some_buffer =
  scan PATH_MAX plain_environ some_buffer.
Proof.
  apply (scan_cut_off_key_hides_next_entry PATH_MAX [] (lit "X509")
           (KEY ++ lit "/tmp/proxy") plain_environ some_buffer).
  - constructor.
  - split; [discriminate|]. exists (lit "_USER_PROXY="). reflexivity.
  - literal_free.
Defined.

(** X5. On a record of whole entries none of which is a cut-off key,
    the byte scanner agrees with the lookup by entries: it reports a
    value exactly when the first entry that starts with
    "X509_USER_PROXY=" has a value shorter than [path_len - 1], and
    then the buffer holds that value; with no such entry the buffer is
    left as it was. *)
Theorem scan_refines_tokenizer_lookup (path_len : nat)
    (es : list (list ascii)) (p : list ascii) :
  0 < path_len -> path_len <= length p ->
  Forall (fun e => (NUL ∉ e) /\ ~ cut_off_key e) es ->
  let r := scan path_len (entries es) p in
  match tokenizer_lookup es with
  | Some v =>
      if length v <? path_len - 1 then r.1 = true /\ cstr r.2 = v
      else r.1 = false
  | None => r = (false, p)
  end.
Proof.
  intros Hpos Hlen Hes r. subst r.
  pose proof (tokenizer_lookup_split es Hes) as Hsplit.
  destruct (tokenizer_lookup es) as [v|].
  - destruct Hsplit as (es1 & es2 & -> & H1 & Hv).
    rewrite entries_app, entries_cons, <- !app_assoc.
    destruct (Nat.ltb_spec (length v) (path_len - 1)) as [Hlt|Hge].
    + destruct (scan_first_assignment path_len es1 v (entries es2) p
                  H1 Hv Hlt Hlen) as (buf & -> & Hbuf).
      split; [reflexivity|exact Hbuf].
    + apply scan_overlong; assumption.
  - apply scan_absent_variable, Hsplit.
Qed.

Lemma scan_refines_tokenizer_lookup_witness :
  let r := scan PATH_MAX
             (entries [lit "HOME=/root"; KEY ++ lit "/tmp/proxy";
                       KEY ++ lit "/tmp/other"]) some_buffer in
  r.1 = true /\ cstr r.2 = lit "/tmp/proxy".
Proof.
  apply (scan_refines_tokenizer_lookup PATH_MAX
           [lit "HOME=/root"; KEY ++ lit "/tmp/proxy";
            KEY ++ lit "/tmp/other"] some_buffer).
  - vm_compute. lia.
  - vm_compute. lia.
  - repeat constructor; try literal_free.
    all: intros [_ [k Hk]]; destruct k; discriminate.
Defined.

(** ** [GetProxyFileFromEnv] as a whole *)

Lemma list_inserts_0 {A} (l q : list A) :
  length l <= length q -> list_inserts 0 l q = l ++ drop (length l) q.
Proof.
  intros Hq. apply list_eq. intros j.
  destruct (decide (j < length l)).
  - rewrite list_lookup_inserts, lookup_app_l by lia. f_equal. lia.
  - rewrite list_lookup_inserts_ge, lookup_app_r, lookup_drop by lia.
    f_equal. lia.
Qed.

Lemma to_int_small (z : Z) : (0 <= z < 2 ^ 31)%Z -> to_int z = z.
Proof. intros Hz. unfold to_int. rewrite Z.mod_small; lia. Qed.

(** X6. With a buffer too small for "/proc/<pid>/environ" and its NUL
    the function returns false without a system call; the buffer holds
    the path cut to [path_len - 1] bytes, NUL-terminated. *)
Theorem GetProxyFileFromEnv_buffer_too_small (h : host) (pid : Z)
    (path_len : nat) (buf : list ascii) (s : proc) :
  0 < path_len -> path_len <= length (environ_path pid) ->
  path_len <= length buf ->
  exists buf',
    GetProxyFileFromEnv h pid path_len buf s = Returned (false, buf') s /\
    cstr buf' = take (path_len - 1) (environ_path pid) /\
    length buf' = length buf.
Proof.
  intros Hpos Hlen Hbuf. destruct (environ_path_ok pid) as [Hnul Hmax].
  unfold PATH_MAX in Hmax. unfold GetProxyFileFromEnv.
  destruct path_len as [|n]; [lia|]. change (S n =? 0) with false. cbv iota.
  unfold snprintf. rewrite to_int_small by lia.
  destruct (Z.leb_spec (Z.of_nat (S n)) (Z.of_nat (length (environ_path pid))))
    as [_|Hgt]; [|lia].
  eexists. split; [reflexivity|].
  assert (length (take n (environ_path pid) ++ [NUL]) = S n) as Hl.
  { rewrite length_app, length_take. change (length [NUL]) with 1. lia. }
  rewrite list_inserts_0, <- app_assoc by lia. split.
  - replace (S n - 1) with n by lia. apply cstr_app_NUL.
    intros Hin. apply Hnul. rewrite <- (take_drop n (environ_path pid)).
    apply elem_of_app. left. exact Hin.
  - rewrite app_assoc, length_app, length_drop. lia.
Qed.

Lemma GetProxyFileFromEnv_buffer_too_small_witness :
  exists buf',
    GetProxyFileFromEnv (environ_host 42 plain_environ) 42 8
      (lit "0123456789") as_root = Returned (false, buf') as_root /\
    cstr buf' = take (8 - 1) (environ_path 42) /\
    length buf' = length (lit "0123456789").
Proof.
  apply (GetProxyFileFromEnv_buffer_too_small
           (environ_host 42 plain_environ) 42 8 (lit "0123456789") as_root);
    vm_compute; lia.
Defined.

Lemma set_euid_back (u : Z) (k : kernel) :
  set_euid (euid k) (set_euid u k) = k.
Proof. destruct k; reflexivity. Qed.

(** X7. With a [PATH_MAX] buffer, in a process whose effective user id
    is an id, the function makes three calls, seteuid(0), fopen of
    "/proc/<pid>/environ" and seteuid back, and leaves the process as it
    found it.  The record is opened as user 0 exactly when the process
    is able to take that id, and otherwise with its own. *)
Theorem GetProxyFileFromEnv_restores_kernel (h : host) (pid : Z)
    (buf : list ascii) (s : proc) :
  length buf = PATH_MAX -> (0 <= euid (kern s) < 2 ^ 32 - 1)%Z ->
  exists (r : bool * list ascii) (ok okf : bool),
    let k1 := if ok then set_euid 0 (kern s) else kern s in
    GetProxyFileFromEnv h pid PATH_MAX buf s =
    Returned r
      (mkProc (kern s)
         (mkEvent (Seteuid (euid (kern s))) true k1 ::
          mkEvent (Fopen (environ_path pid)) okf k1 ::
          mkEvent (Seteuid 0) ok (kern s) :: trace s)) /\
    (ok = true <->
     euid (kern s) = 0 \/ ruid (kern s) = 0 \/ suid (kern s) = 0)%Z.
Proof.
  intros Hbuf He. unfold GetProxyFileFromEnv.
  change (PATH_MAX =? 0) with false. cbv iota.
  destruct (snprintf_path buf _ (environ_path_ok pid) Hbuf)
    as (buf1 & -> & Hcstr & Hlen1 & Hfit).
  change (to_int (Z.of_nat PATH_MAX)) with (Z.of_nat PATH_MAX).
  rewrite Hfit. cbv beta iota delta [bind geteuid ret].
  rewrite to_uint_to_int, Hcstr by lia.
  assert (valid_id (euid (kern s)) = true) as Hvalid
    by (apply valid_id_below; lia).
  assert (seteuid 0 s =
          if ((euid (kern s) =? 0) || (0 =? ruid (kern s)) ||
              (0 =? euid (kern s)) || (0 =? suid (kern s)))%Z
          then Returned 0%Z (record (Seteuid 0) true (set_euid 0 (kern s)) s)
          else Returned (-1)%Z (record (Seteuid 0) false (kern s) s))
    as -> by reflexivity.
  destruct ((euid (kern s) =? 0) || (0 =? ruid (kern s)) ||
            (0 =? euid (kern s)) || (0 =? suid (kern s)))%Z eqn:Hroot;
    cbv beta iota.
  - assert (euid (kern s) = 0 \/ ruid (kern s) = 0 \/ suid (kern s) = 0)%Z
      as Hcan.
    { repeat (apply orb_true_iff in Hroot as [Hroot|Hroot]);
        apply Z.eqb_eq in Hroot; lia. }
    unfold fopen.
    set (s1 := record (Seteuid 0) true (set_euid 0 (kern s)) s).
    assert (forall (r : bool * list ascii) (okf : bool),
              (seteuid (euid (kern s)) ;; ret r)%host
                (record (Fopen (environ_path pid)) okf (kern s1) s1) =
              Returned r
                (mkProc (kern s)
                   (mkEvent (Seteuid (euid (kern s))) true (set_euid 0 (kern s)) ::
                    mkEvent (Fopen (environ_path pid)) okf (set_euid 0 (kern s)) ::
                    mkEvent (Seteuid 0) true (kern s) :: trace s))) as Hend.
    { intros r okf. unfold bind, seteuid, ret.
      cbn [kern record s1 euid set_euid]. rewrite Hvalid.
      cbn [andb orb Z.eqb]. unfold record.
      cbn [kern trace]. rewrite (set_euid_back 0 (kern s)). reflexivity. }
    destruct (file_at h s1 (environ_path pid)) as [env|]; cbv beta iota.
    + unfold f_pos, f_data. rewrite drop_0.
      destruct (scan PATH_MAX env buf1) as [set_env path']. cbv beta iota.
      exists (set_env, path'), true, true. split; [apply Hend|tauto].
    + exists (false, buf1), true, false. split; [apply Hend|tauto].
  - assert (~ (euid (kern s) = 0 \/ ruid (kern s) = 0 \/ suid (kern s) = 0)%Z)
      as Hcannot.
    { repeat (apply orb_false_iff in Hroot as [Hroot ?]).
      repeat match goal with
             | H : (_ =? _)%Z = false |- _ => apply Z.eqb_neq in H
             end. lia. }
    unfold fopen.
    set (s1 := record (Seteuid 0) false (kern s) s).
    assert (forall (r : bool * list ascii) (okf : bool),
              (seteuid (euid (kern s)) ;; ret r)%host
                (record (Fopen (environ_path pid)) okf (kern s1) s1) =
              Returned r
                (mkProc (kern s)
                   (mkEvent (Seteuid (euid (kern s))) true (kern s) ::
                    mkEvent (Fopen (environ_path pid)) okf (kern s) ::
                    mkEvent (Seteuid 0) false (kern s) :: trace s))) as Hend.
    { intros r okf. unfold bind, seteuid, ret.
      cbn [kern record s1]. rewrite Hvalid, (Z.eqb_refl (euid (kern s))).
      rewrite !orb_true_r. cbn [andb]. unfold record.
      cbn [kern trace]. rewrite set_euid_same. reflexivity. }
    destruct (file_at h s1 (environ_path pid)) as [env|]; cbv beta iota.
    + unfold f_pos, f_data. rewrite drop_0.
      destruct (scan PATH_MAX env buf1) as [set_env path']. cbv beta iota.
      exists (set_env, path'), false, true.
      split; [apply Hend|split; [discriminate|contradiction]].
    + exists (false, buf1), false, false.
      split; [apply Hend|split; [discriminate|contradiction]].
Qed.

Lemma GetProxyFileFromEnv_restores_kernel_witness :
  exists (r : bool * list ascii) (ok okf : bool),
    let k1 := if ok then set_euid 0 (kern as_user_1000)
              else kern as_user_1000 in
    GetProxyFileFromEnv (environ_host 42 plain_environ) 42 PATH_MAX
      some_buffer as_user_1000 =
    Returned r
      (mkProc (kern as_user_1000)
         (mkEvent (Seteuid (euid (kern as_user_1000))) true k1 ::
          mkEvent (Fopen (environ_path 42)) okf k1 ::
          mkEvent (Seteuid 0) ok (kern as_user_1000) ::
          trace as_user_1000)) /\
    (ok = true <->
     euid (kern as_user_1000) = 0 \/ ruid (kern as_user_1000) = 0 \/
     suid (kern as_user_1000) = 0)%Z.
Proof.
  apply (GetProxyFileFromEnv_restores_kernel (environ_host 42 plain_environ)
           42 some_buffer as_user_1000).
  - reflexivity.
  - vm_compute. split; [discriminate|reflexivity].
Defined.

(** ** [GetProxyFileInternal] and [GetX509Proxy]: more about the calls *)

Lemma cred_or_fopen_no_match (p : list ascii) (evs : list event)
    (P : event -> Prop) :
  Forall (cred_or_fopen p) evs ->
  (forall e, P e -> match ev_call e with
                    | Seteuid _ | Setegid _ | Fopen _ => False
                    | _ => True
                    end) ->
  ~ Exists P evs.
Proof.
  intros Hevs HP Hex. apply Exists_exists in Hex as (e & Hin & He).
  rewrite Forall_forall in Hevs. specialize (Hevs e Hin).
  specialize (HP e He). unfold cred_or_fopen in Hevs.
  destruct (ev_call e); contradiction.
Qed.

(** The calls of [GetProxyFileFromEnv] are [seteuid] and the [fopen]
    of the environment record, and no other. *)
Lemma GetProxyFileFromEnv_calls (h : host) (pid : Z) (buf : list ascii)
    (s : proc) :
  length buf = PATH_MAX ->
  let buf1 := (snprintf buf PATH_MAX (environ_path pid)).2 in
  let s1 := final (seteuid 0 s) in
  exists (e' : Z) (evs : list event),
    GetProxyFileFromEnv h pid PATH_MAX buf s =
    Returned
      match file_at h s1 (environ_path pid) with
      | Some env => scan PATH_MAX env buf1
      | None => (false, buf1)
      end
      (mkProc (set_euid e' (kern s)) (evs ++ trace s)) /\
    Forall (euid_or_fopen (environ_path pid)) evs.
Proof.
  intros Hbuf buf1 s1. subst buf1 s1. unfold GetProxyFileFromEnv.
  change (PATH_MAX =? 0) with false. cbv iota.
  destruct (snprintf_path buf _ (environ_path_ok pid) Hbuf)
    as (buf1 & -> & Hcstr & Hlen1 & Hfit).
  change (to_int (Z.of_nat PATH_MAX)) with (Z.of_nat PATH_MAX).
  rewrite Hfit. cbv beta iota delta [bind geteuid ret]. cbn [snd].
  step_cred. simpl final.
  unfold fopen at 1. rewrite Hcstr.
  destruct (file_at h _ (environ_path pid)) as [env|]; cbv beta iota.
  - unfold f_pos, f_data. rewrite drop_0.
    destruct (scan PATH_MAX env buf1) as [set_env path'].
    cbv beta iota. step_cred.
    exists e0. eexists [_; _; _]. split; [reflexivity|].
    repeat constructor; reflexivity.
  - step_cred.
    exists e0. eexists [_; _; _]. split; [reflexivity|].
    repeat constructor; reflexivity.
Qed.

(** [GetProxyFileInternal_split], with the calls made before lines
    113-159 told apart. *)
Lemma GetProxyFileInternal_split_calls (h : host) (pid uid gid : Z)
    (s : proc) :
  exists (e0 : Z) (evs0 : list event),
    Forall (euid_or_fopen (environ_path pid)) evs0 /\
    GetProxyFileInternal h pid uid gid s =
    privileged_open h (candidate h pid uid s) (root_path pid) (cwd_path pid)
      uid gid (mkProc (set_euid e0 (kern s)) (evs0 ++ trace s)).
Proof.
  destruct (GetProxyFileFromEnv_calls h pid (uninit (junk h) PATH_MAX) s
              (length_uninit _ _)) as (e0 & evs0 & Heq & Hevs).
  exists e0, evs0. split; [exact Hevs|].
  unfold GetProxyFileInternal, candidate.
  unfold bind at 1. rewrite Heq. fold (env_lookup h pid s).
  pose proof (env_lookup_length h pid s) as Hlen.
  destruct (env_lookup h pid s) as [found path]. simpl in Hlen. cbn [fst snd].
  destruct (snprintf_path (uninit (junk h) PATH_MAX) _ (root_path_ok pid)
              (length_uninit _ _)) as (broot & -> & Hroot & _ & Hfit1).
  destruct (snprintf_path (uninit (junk h) PATH_MAX) _ (cwd_path_ok pid)
              (length_uninit _ _)) as (bcwd & -> & Hcwd & _ & Hfit2).
  destruct found.
  - change (Z.of_nat PATH_MAX <=? 0)%Z with false. cbv iota.
    rewrite Hfit1, Hfit2, Hroot, Hcwd. reflexivity.
  - destruct (snprintf_path path _ (default_path_ok uid) Hlen)
      as (bdef & -> & Hdef & _ & Hfit0).
    rewrite Hfit0, Hfit1, Hfit2, Hroot, Hcwd, Hdef. reflexivity.
Qed.

Lemma euid_or_fopen_no_match (p : list ascii) (evs : list event)
    (P : event -> Prop) :
  Forall (euid_or_fopen p) evs ->
  (forall e, P e -> match ev_call e with
                    | Seteuid _ | Fopen _ => False
                    | _ => True
                    end) ->
  ~ Exists P evs.
Proof.
  intros Hevs HP Hex. apply Exists_exists in Hex as (e & Hin & He).
  rewrite Forall_forall in Hevs. specialize (Hevs e Hin).
  specialize (HP e He). unfold euid_or_fopen in Hevs.
  destruct (ev_call e); contradiction.
Qed.

Lemma cwd_path_not_dot (pid : Z) : cwd_path pid <> lit ".".
Proof. unfold cwd_path. discriminate. Qed.

Lemma cwd_path_not_slash (pid : Z) : cwd_path pid <> lit "/".
Proof. unfold cwd_path. discriminate. Qed.

Lemma root_path_not_slash (pid : Z) : root_path pid <> lit "/".
Proof. unfold root_path. discriminate. Qed.

Ltac pick_event tac :=
  first [ apply Exists_cons_hd; solve [tac]
        | apply Exists_cons_tl; pick_event tac ].

(** X8. [GetProxyFileInternal] ends the process in one case only, at
    one of its two [abort()] (the assertion of [GetProxyFileFromEnv]
    holds of its call with [PATH_MAX]): a step of the way back,
    [fchdir] or [chroot(".")], has failed after [chdir] to the
    directory of the target succeeded, and that failed call is the
    last the process made. *)
Theorem GetProxyFileInternal_aborts_only_on_failed_reversal (h : host)
    (pid uid gid : Z) (s : proc) :
  let o := GetProxyFileInternal h pid uid gid s in
  returned o = false ->
  exists e evs,
    trace (final o) = e :: evs ++ trace s /\ reversal_failed e /\
    Exists (fun e' => ev_call e' = Chdir (cwd_path pid) /\ ev_ok e' = true)
           evs.
Proof.
  intros o. subst o.
  destruct (GetProxyFileInternal_split h pid uid gid s)
    as (e0 & evs0 & _ & _ & ->).
  intros Hret.
  destruct (privileged_open_aborted h _ _ _ _ _ _ Hret)
    as (e & evs & Htr & Hfail & Hex).
  exists e, (evs ++ evs0). rewrite Htr. cbn [trace].
  split; [rewrite <- app_assoc; reflexivity|].
  split; [exact Hfail|]. apply Exists_app. left. exact Hex.
Qed.

Lemma GetProxyFileInternal_aborts_only_on_failed_reversal_witness :
  let o := GetProxyFileInternal
             (container_host 42 None proxy_1000 no_way_back)
             42 1000 1000 as_root in
  exists e evs,
    trace (final o) = e :: evs ++ trace as_root /\ reversal_failed e /\
    Exists (fun e' => ev_call e' = Chdir (cwd_path 42) /\ ev_ok e' = true)
           evs.
Proof.
  apply (GetProxyFileInternal_aborts_only_on_failed_reversal
           (container_host 42 None proxy_1000 no_way_back)
           42 1000 1000 as_root).
  vm_compute. reflexivity.
Defined.

(** X9. [GetProxyFileInternal] closes neither [fd] nor [fd2]: when
    [open("/")] and [open(".")] both succeed, two descriptors that
    were not in use at the call refer, when the function ends, to the
    root and to the working directory of the call, and every directory
    descriptor the process had at the call is as it was. *)
Theorem GetProxyFileInternal_leaves_fd_and_fd2_open (h : host)
    (pid uid gid : Z) (s : proc) (evs : list event) :
  let o := GetProxyFileInternal h pid uid gid s in
  trace (final o) = evs ++ trace s ->
  ~ Exists open_failed evs ->
  exists fd fd2 : nat,
    fd <> fd2 /\
    fd_dir (fds (kern s)) (Z.of_nat fd) = None /\
    fd_dir (fds (kern s)) (Z.of_nat fd2) = None /\
    fd_dir (fds (kern (final o))) (Z.of_nat fd) = Some (root (kern s)) /\
    fd_dir (fds (kern (final o))) (Z.of_nat fd2) = Some (cwd (kern s)) /\
    forall n d, fd_dir (fds (kern s)) n = Some d ->
                fd_dir (fds (kern (final o))) n = Some d.
Proof.
  intros o. subst o.
  destruct (GetProxyFileInternal_split_calls h pid uid gid s)
    as (e0 & evs0 & Hevs0 & ->).
  destruct (privileged_open_keeps_descriptors h (candidate h pid uid s)
              (root_path pid) (cwd_path pid) uid gid
              (mkProc (set_euid e0 (kern s)) (evs0 ++ trace s)))
    as (evs1 & Htr & Hkeeps).
  rewrite Htr. cbn [trace]. rewrite app_assoc. intros Hevs%app_inv_tail.
  subst evs. intros Hno. apply Hkeeps.
  intros Hex. apply Hno, Exists_app. left. exact Hex.
Qed.

Lemma GetProxyFileInternal_leaves_fd_and_fd2_open_witness :
  let o := GetProxyFileInternal
             (container_host 42 None proxy_1000 nothing_refused)
             42 1000 1000 as_root in
  exists fd fd2 : nat,
    fd <> fd2 /\
    fd_dir (fds (kern as_root)) (Z.of_nat fd) = None /\
    fd_dir (fds (kern as_root)) (Z.of_nat fd2) = None /\
    fd_dir (fds (kern (final o))) (Z.of_nat fd) = Some (root (kern as_root)) /\
    fd_dir (fds (kern (final o))) (Z.of_nat fd2) = Some (cwd (kern as_root)) /\
    forall n d, fd_dir (fds (kern as_root)) n = Some d ->
                fd_dir (fds (kern (final o))) n = Some d.
Proof.
  apply (GetProxyFileInternal_leaves_fd_and_fd2_open
           (container_host 42 None proxy_1000 nothing_refused)
           42 1000 1000 as_root
           (trace (final (GetProxyFileInternal
                            (container_host 42 None proxy_1000
                                            nothing_refused)
                            42 1000 1000 as_root)))).
  - symmetry. apply app_nil_r.
  - vm_compute. intros Hex.
    repeat (apply Exists_cons in Hex as [[[p Hc] Hok]|Hex];
            [discriminate|]).
    apply Exists_nil in Hex. exact Hex.
Defined.

(** X10. When [open("/")] or [open(".")] fails, [GetProxyFileInternal]
    returns [NULL] having called nothing but [seteuid], [open] and the
    [fopen] of the environment record: it does not change directory,
    root or group id, and opens no other file. *)
Theorem GetProxyFileInternal_open_refused (h : host) (pid uid gid : Z)
    (s : proc) (evs : list event) :
  let o := GetProxyFileInternal h pid uid gid s in
  trace (final o) = evs ++ trace s ->
  Exists open_failed evs ->
  (exists s', o = Returned None s') /\
  Forall (fun e => match ev_call e with
                   | Seteuid _ | Open _ => True
                   | Fopen p => p = environ_path pid
                   | _ => False
                   end) evs /\
  root (kern (final o)) = root (kern s) /\
  cwd (kern (final o)) = cwd (kern s) /\
  egid (kern (final o)) = egid (kern s).
Proof.
  intros o. subst o.
  destruct (GetProxyFileInternal_split_calls h pid uid gid s)
    as (e0 & evs0 & Hevs0 & ->).
  destruct (privileged_open_open_refused h (candidate h pid uid s)
              (root_path pid) (cwd_path pid) uid gid
              (mkProc (set_euid e0 (kern s)) (evs0 ++ trace s)))
    as (evs1 & Htr & Hrefused).
  rewrite Htr. cbn [trace]. rewrite app_assoc. intros Hevs%app_inv_tail.
  subst evs. intros Hex. apply Exists_app in Hex as [Hex|Hex].
  2:{ exfalso. revert Hex. apply (euid_or_fopen_no_match _ _ _ Hevs0).
      intros e [[p ->] _]. exact I. }
  destruct (Hrefused Hex) as (Hret & Hcalls & Hroot & Hcwd & Hegid).
  split; [exact Hret|]. split; [|auto].
  apply Forall_app. split.
  - eapply Forall_impl; [exact Hcalls|]. intros e. cbv beta.
    destruct (ev_call e); intros He; try contradiction; exact I.
  - eapply Forall_impl; [exact Hevs0|]. intros e. unfold euid_or_fopen.
    destruct (ev_call e); intros He; try contradiction; try exact I.
    exact He.
Qed.

Lemma GetProxyFileInternal_open_refused_witness :
  let o := GetProxyFileInternal
             (container_host 42 None proxy_1000 no_open_dot)
             42 1000 1000 as_root in
  (exists s', o = Returned None s') /\
  Forall (fun e => match ev_call e with
                   | Seteuid _ | Open _ => True
                   | Fopen p => p = environ_path 42
                   | _ => False
                   end) (trace (final o)) /\
  root (kern (final o)) = root (kern as_root) /\
  cwd (kern (final o)) = cwd (kern as_root) /\
  egid (kern (final o)) = egid (kern as_root).
Proof.
  apply (GetProxyFileInternal_open_refused
           (container_host 42 None proxy_1000 no_open_dot)
           42 1000 1000 as_root).
  - symmetry. apply app_nil_r.
  - vm_compute.
    pick_event ltac:(split; [eexists; reflexivity|reflexivity]).
Defined.

(** X11. When [chdir] to the directory of the target fails,
    [GetProxyFileInternal] calls neither [chroot] nor [fchdir]: it
    opens the candidate path under the root and in the directory of
    the call, returns what that [fopen] gave, and leaves root and
    directory as they were. *)
Theorem GetProxyFileInternal_chdir_refused (h : host) (pid uid gid : Z)
    (s : proc) (evs : list event) :
  let o := GetProxyFileInternal h pid uid gid s in
  let path := candidate h pid uid s in
  trace (final o) = evs ++ trace s ->
  Exists (fun e => ev_call e = Chdir (cwd_path pid) /\ ev_ok e = false) evs ->
  Forall (fun e => stays_put e \/
                   (ev_call e = Chdir (cwd_path pid) /\ ev_ok e = false)) evs /\
  exists s_open s',
    o = Returned ((fun data => mkFILE data 0) <$> file_at h s_open path) s' /\
    Exists (fun e => ev_call e = Fopen path /\ ev_at e = kern s_open) evs /\
    root (kern s_open) = root (kern s) /\ cwd (kern s_open) = cwd (kern s) /\
    root (kern s') = root (kern s) /\ cwd (kern s') = cwd (kern s).
Proof.
  intros o path. subst o path.
  destruct (GetProxyFileInternal_split h pid uid gid s)
    as (e0 & evs0 & Hevs0 & _ & ->).
  destruct (privileged_open_chdir_refused_calls h (candidate h pid uid s)
              (root_path pid) (cwd_path pid) uid gid
              (mkProc (set_euid e0 (kern s)) (evs0 ++ trace s)))
    as (evs1 & Htr & Hrefused).
  rewrite Htr. cbn [trace]. rewrite app_assoc. intros Hevs%app_inv_tail.
  subst evs. intros Hex. apply Exists_app in Hex as [Hex|Hex].
  2:{ exfalso. revert Hex. apply (cred_or_fopen_no_match _ _ _ Hevs0).
      intros e [-> _]. exact I. }
  destruct (Hrefused Hex)
    as (Hcalls & s_open & s' & Hret & Hfopen & Hro & Hco & Hr & Hc).
  split.
  - apply Forall_app. split; [exact Hcalls|].
    eapply Forall_impl; [exact Hevs0|]. intros e. unfold cred_or_fopen.
    intros He. left. unfold stays_put.
    destruct (ev_call e); try contradiction; exact I.
  - exists s_open, s'. split; [exact Hret|].
    split; [apply Exists_app; left; exact Hfopen|]. auto.
Qed.

Lemma GetProxyFileInternal_chdir_refused_witness :
  let h := container_host 42 None proxy_1000 no_chdir in
  let o := GetProxyFileInternal h 42 1000 1000 as_root in
  let path := candidate h 42 1000 as_root in
  Forall (fun e => stays_put e \/
                   (ev_call e = Chdir (cwd_path 42) /\ ev_ok e = false))
         (trace (final o)) /\
  exists s_open s',
    o = Returned ((fun data => mkFILE data 0) <$> file_at h s_open path) s' /\
    Exists (fun e => ev_call e = Fopen path /\ ev_at e = kern s_open)
           (trace (final o)) /\
    root (kern s_open) = root (kern as_root) /\
    cwd (kern s_open) = cwd (kern as_root) /\
    root (kern s') = root (kern as_root) /\
    cwd (kern s') = cwd (kern as_root).
Proof.
  apply (GetProxyFileInternal_chdir_refused
           (container_host 42 None proxy_1000 no_chdir)
           42 1000 1000 as_root).
  - symmetry. apply app_nil_r.
  - vm_compute. pick_event ltac:(split; reflexivity).
Defined.

(** X12. In a process whose real or saved user id is 0, called with a
    user and a group id that are ids, [GetProxyFileInternal] opens no
    file after the environment record but the candidate path, and opens
    it with the user and group id of the target as effective ids. *)
Theorem GetProxyFileInternal_opens_with_target_ids (h : host)
    (pid uid gid : Z) (s : proc) :
  (ruid (kern s) = 0 \/ suid (kern s) = 0)%Z ->
  valid_id uid = true -> valid_id gid = true ->
  let o := GetProxyFileInternal h pid uid gid s in
  exists evs1 evs0,
    trace (final o) = evs1 ++ evs0 ++ trace s /\
    Forall (cred_or_fopen (environ_path pid)) evs0 /\
    Forall (fun e => forall p, ev_call e = Fopen p ->
              p = candidate h pid uid s /\
              euid (ev_at e) = uid /\ egid (ev_at e) = gid) evs1.
Proof.
  intros Hroot Hu Hg o. subst o.
  destruct (GetProxyFileInternal_split h pid uid gid s)
    as (e0 & evs0 & Hevs0 & _ & ->).
  destruct (privileged_open_ids h (candidate h pid uid s)
              (root_path pid) (cwd_path pid) uid gid
              (mkProc (set_euid e0 (kern s)) (evs0 ++ trace s))
              Hroot Hu Hg) as (evs1 & Htr & Hids).
  exists evs1, evs0. auto.
Qed.

Lemma GetProxyFileInternal_opens_with_target_ids_witness :
  let h := container_host 42 None proxy_1000 nothing_refused in
  let o := GetProxyFileInternal h 42 1000 1000 as_root in
  exists evs1 evs0,
    trace (final o) = evs1 ++ evs0 ++ trace as_root /\
    Forall (cred_or_fopen (environ_path 42)) evs0 /\
    Forall (fun e => forall p, ev_call e = Fopen p ->
              p = candidate h 42 1000 as_root /\
              euid (ev_at e) = 1000%Z /\ egid (ev_at e) = 1000%Z) evs1.
Proof.
  apply (GetProxyFileInternal_opens_with_target_ids
           (container_host 42 None proxy_1000 nothing_refused)
           42 1000 1000 as_root).
  - left. reflexivity.
  - reflexivity.
  - reflexivity.
Defined.

(** X13. On a host where "/proc/<pid>/root" and "/proc/<pid>/cwd" keep
    naming the same two directories, [GetProxyFileInternal] opens the
    candidate path either under the root and in the directory of the
    target or, when [chdir] failed, under the root and in the directory
    of the call; never with one of each. *)
Theorem GetProxyFileInternal_opens_in_one_namespace (h : host)
    (pid uid gid : Z) (s : proc) (dr dc : dir) :
  (forall st, dir_at h st (root_path pid) = Some dr) ->
  (forall st, dir_at h st (cwd_path pid) = Some dc) ->
  let o := GetProxyFileInternal h pid uid gid s in
  exists evs1 evs0,
    trace (final o) = evs1 ++ evs0 ++ trace s /\
    Forall (cred_or_fopen (environ_path pid)) evs0 /\
    Forall (fun e => ev_call e = Fopen (candidate h pid uid s) ->
              (root (ev_at e) = dr /\ cwd (ev_at e) = dc) \/
              (root (ev_at e) = root (kern s) /\
               cwd (ev_at e) = cwd (kern s) /\
               Exists (fun e' => ev_call e' = Chdir (cwd_path pid) /\
                                 ev_ok e' = false) evs1)) evs1.
Proof.
  intros Hdr Hdc o. subst o.
  destruct (GetProxyFileInternal_split h pid uid gid s)
    as (e0 & evs0 & Hevs0 & _ & ->).
  destruct (privileged_open_namespace h (candidate h pid uid s)
              (root_path pid) (cwd_path pid) uid gid
              (mkProc (set_euid e0 (kern s)) (evs0 ++ trace s)) dr dc
              (root_path_not_slash pid) (root_path_not_dot pid)
              (cwd_path_not_slash pid) (cwd_path_not_dot pid) Hdr Hdc)
    as (evs1 & Htr & Hns).
  exists evs1, evs0. auto.
Qed.

Lemma GetProxyFileInternal_opens_in_one_namespace_witness :
  let h := container_host 42 None proxy_1000 nothing_refused in
  let o := GetProxyFileInternal h 42 1000 1000 as_root in
  exists evs1 evs0,
    trace (final o) = evs1 ++ evs0 ++ trace as_root /\
    Forall (cred_or_fopen (environ_path 42)) evs0 /\
    Forall (fun e => ev_call e = Fopen (candidate h 42 1000 as_root) ->
              (root (ev_at e) = 50 /\ cwd (ev_at e) = 51) \/
              (root (ev_at e) = root (kern as_root) /\
               cwd (ev_at e) = cwd (kern as_root) /\
               Exists (fun e' => ev_call e' = Chdir (cwd_path 42) /\
                                 ev_ok e' = false) evs1)) evs1.
Proof.
  apply (GetProxyFileInternal_opens_in_one_namespace
           (container_host 42 None proxy_1000 nothing_refused)
           42 1000 1000 as_root 50 51).
  - intros st. vm_compute. reflexivity.
  - intros st. vm_compute. reflexivity.
Defined.

(** X14. When the effective ids of the process can be gone back to,
    [GetX509Proxy] returns with the effective user id, the effective
    group id and the root of the call, and with its working directory
    too unless [chroot] to the root of the target was refused: then it
    returns [NULL] from the directory that was the root. *)
Theorem GetX509Proxy_frame (h : host) (authz_req : AuthzRequest)
    (proxy : list ascii) (s : proc) (r : option FILE * list ascii)
    (s' : proc) :
  restorable (kern s) ->
  GetX509Proxy h authz_req proxy s = Returned r s' ->
  euid (kern s') = euid (kern s) /\ egid (kern s') = egid (kern s) /\
  root (kern s') = root (kern s) /\
  (cwd (kern s') = cwd (kern s) \/
   (r = (None, proxy) /\ cwd (kern s') = root (kern s) /\
    exists e, e ∈ trace s' /\
              ev_call e = Chroot (root_path (req_pid authz_req)) /\
              ev_ok e = false)).
Proof.
  intros Hres. unfold GetX509Proxy, bind.
  destruct (GetProxyFileInternal _ _ _ _ s) as [r0 s0|s0] eqn:Hint;
    [|discriminate].
  destruct (GetProxyFileInternal_frame _ _ _ _ _ _ _ Hres Hint)
    as (He & Hg & Hr & Hc).
  destruct r0 as [fp|].
  - destruct (read_loop _ _ _). intros [= <- <-].
    repeat (split; [assumption|]).
    destruct Hc as [Hc|[Hnone _]]; [left; exact Hc|discriminate].
  - intros [= <- <-]. repeat (split; [assumption|]).
    destruct Hc as [Hc|(_ & Hc & Hev)]; [left; exact Hc|right; auto].
Qed.

Lemma GetX509Proxy_frame_witness :
  exists r s',
    GetX509Proxy (container_host 42 None proxy_1000 nothing_refused)
      (mkAuthzRequest 42 1000 1000 "u") [] as_root = Returned r s' /\
    euid (kern s') = euid (kern as_root) /\
    egid (kern s') = egid (kern as_root) /\
    root (kern s') = root (kern as_root) /\
    (cwd (kern s') = cwd (kern as_root) \/
     (r = (None, []) /\ cwd (kern s') = root (kern as_root) /\
      exists e, e ∈ trace s' /\ ev_call e = Chroot (root_path 42) /\
                ev_ok e = false)).
Proof.
  eexists. eexists. split; [vm_compute; reflexivity|].
  apply (GetX509Proxy_frame
           (container_host 42 None proxy_1000 nothing_refused)
           (mkAuthzRequest 42 1000 1000 "u") [] as_root).
  - vm_compute. repeat split; try discriminate; auto.
  - vm_compute. reflexivity.
Defined.

(** X15. In a process without privilege [GetProxyFileInternal] makes
    every call of lines 113-159, the [fopen] of the candidate path
    among them, with the effective ids of the process, whatever the
    ids of the target are, and ends with them: [seteuid] and [setegid]
    fail and the failure is not looked at. *)
Theorem GetProxyFileInternal_unprivileged_keeps_ids (h : host)
    (pid uid gid : Z) (s : proc) :
  unprivileged (kern s) -> restorable (kern s) ->
  let o := GetProxyFileInternal h pid uid gid s in
  exists evs1 evs0,
    trace (final o) = evs1 ++ evs0 ++ trace s /\
    Forall (cred_or_fopen (environ_path pid)) evs0 /\
    Forall (fun e => euid (ev_at e) = euid (kern s) /\
                     egid (ev_at e) = egid (kern s)) evs1 /\
    Exists (fun e => ev_call e = Open (lit "/")) evs1 /\
    euid (kern (final o)) = euid (kern s) /\
    egid (kern (final o)) = egid (kern s).
Proof.
  intros Hun Hres o. subst o.
  destruct (GetProxyFileInternal_split h pid uid gid s)
    as (e0 & evs0 & Hevs0 & He0 & ->).
  specialize (He0 Hres). subst e0. rewrite set_euid_same.
  set (s0 := mkProc (kern s) (evs0 ++ trace s)).
  destruct (privileged_open_unprivileged h (candidate h pid uid s)
              (root_path pid) (cwd_path pid) uid gid s0 Hun)
    as (evs1 & Htr & Hids & He & Hg).
  destruct (privileged_open_reaches_open h (candidate h pid uid s)
              (root_path pid) (cwd_path pid) uid gid s0)
    as (evs1' & Htr' & Hopen & _).
  rewrite Htr in Htr'. apply app_inv_tail in Htr'. subst evs1'.
  exists evs1, evs0. auto 10.
Qed.

Lemma GetProxyFileInternal_unprivileged_keeps_ids_witness :
  let h := container_host 42 (Some plain_environ) proxy_1000 no_chdir in
  let o := GetProxyFileInternal h 42 2000 2000 as_user_1000 in
  (exists evs1 evs0,
     trace (final o) = evs1 ++ evs0 ++ trace as_user_1000 /\
     Forall (cred_or_fopen (environ_path 42)) evs0 /\
     Forall (fun e => euid (ev_at e) = euid (kern as_user_1000) /\
                      egid (ev_at e) = egid (kern as_user_1000)) evs1 /\
     Exists (fun e => ev_call e = Open (lit "/")) evs1 /\
     euid (kern (final o)) = euid (kern as_user_1000) /\
     egid (kern (final o)) = egid (kern as_user_1000)) /\
  Exists (fun e => ev_call e = Setegid 2000 /\ ev_ok e = false)
         (trace (final o)) /\
  Exists (fun e => ev_call e = Seteuid 2000 /\ ev_ok e = false)
         (trace (final o)) /\
  Exists (fun e => ev_call e = Fopen (lit "/tmp/x509up_u2000") /\
                   euid (ev_at e) = 1000%Z /\ egid (ev_at e) = 1000%Z)
         (trace (final o)).
Proof.
  split.
  - apply (GetProxyFileInternal_unprivileged_keeps_ids
             (container_host 42 (Some plain_environ) proxy_1000 no_chdir)
             42 2000 2000 as_user_1000).
    + vm_compute. repeat split; try discriminate; auto.
    + vm_compute. repeat split; try discriminate; auto.
  - vm_compute. repeat split; pick_event ltac:(repeat split; reflexivity).
Defined.

(** X16. [GetProxyFileInternal] never returns for want of room in its
    buffers: "/tmp/x509up_u%d", "/proc/%d/root" and "/proc/%d/cwd" fit
    in [PATH_MAX] bytes for every pid and uid, so every call gets as
    far as [open("/")] and [open(".")]. *)
Theorem GetProxyFileInternal_reaches_open (h : host) (pid uid gid : Z)
    (s : proc) :
  let o := GetProxyFileInternal h pid uid gid s in
  exists evs,
    trace (final o) = evs ++ trace s /\
    Exists (fun e => ev_call e = Open (lit "/")) evs /\
    Exists (fun e => ev_call e = Open (lit ".")) evs.
Proof.
  intros o. subst o.
  destruct (GetProxyFileInternal_split h pid uid gid s)
    as (e0 & evs0 & _ & _ & ->).
  destruct (privileged_open_reaches_open h (candidate h pid uid s)
              (root_path pid) (cwd_path pid) uid gid
              (mkProc (set_euid e0 (kern s)) (evs0 ++ trace s)))
    as (evs1 & Htr & Hroot & Hdot).
  exists (evs1 ++ evs0). rewrite Htr. cbn [trace].
  split; [apply app_assoc|]. split; apply Exists_app; left; assumption.
Qed.

(** X17. Whenever [chroot] to the root of the target fails,
    [GetProxyFileInternal] does not call [setegid] and opens no file
    but the environment record, and if it returns it returns [NULL],
    under the root of the call and with that root as its working
    directory. *)
Theorem GetProxyFileInternal_chroot_refused (h : host) (pid uid gid : Z)
    (s : proc) (evs : list event) :
  let o := GetProxyFileInternal h pid uid gid s in
  trace (final o) = evs ++ trace s ->
  Exists (fun e => ev_call e = Chroot (root_path pid) /\ ev_ok e = false)
         evs ->
  Forall (fun e => match ev_call e with
                   | Setegid _ => False
                   | Fopen p => p = environ_path pid
                   | _ => True
                   end) evs /\
  forall r s', o = Returned r s' ->
               r = None /\ cwd (kern s') = root (kern s) /\
               root (kern s') = root (kern s).
Proof.
  intros o. subst o.
  destruct (GetProxyFileInternal_split_calls h pid uid gid s)
    as (e0 & evs0 & Hevs0 & ->).
  destruct (privileged_open_chroot_refused h (candidate h pid uid s)
              (root_path pid) (cwd_path pid) uid gid
              (mkProc (set_euid e0 (kern s)) (evs0 ++ trace s))
              (root_path_not_dot pid))
    as (evs1 & Htr & Hrefused).
  rewrite Htr. cbn [trace]. rewrite app_assoc. intros Hevs%app_inv_tail.
  subst evs. intros Hex. apply Exists_app in Hex as [Hex|Hex].
  2:{ exfalso. revert Hex. apply (euid_or_fopen_no_match _ _ _ Hevs0).
      intros e [-> _]. exact I. }
  destruct (Hrefused Hex) as (Hcalls & Hret). split; [|exact Hret].
  apply Forall_app. split.
  - eapply Forall_impl; [exact Hcalls|]. intros e. cbv beta.
    destruct (ev_call e); intros He; try contradiction; exact I.
  - eapply Forall_impl; [exact Hevs0|]. intros e. unfold euid_or_fopen.
    destruct (ev_call e); intros He; try contradiction; try exact I.
    exact He.
Qed.

Lemma GetProxyFileInternal_chroot_refused_witness :
  let o := GetProxyFileInternal
             (container_host 42 (Some plain_environ) proxy_1000 no_chroot)
             42 1000 1000 as_user_1000 in
  Forall (fun e => match ev_call e with
                   | Setegid _ => False
                   | Fopen p => p = environ_path 42
                   | _ => True
                   end) (trace (final o)) /\
  forall r s', o = Returned r s' ->
               r = None /\ cwd (kern s') = root (kern as_user_1000) /\
               root (kern s') = root (kern as_user_1000).
Proof.
  apply (GetProxyFileInternal_chroot_refused
           (container_host 42 (Some plain_environ) proxy_1000 no_chroot)
           42 1000 1000 as_user_1000).
  - symmetry. apply app_nil_r.
  - vm_compute. pick_event ltac:(split; reflexivity).
Defined.

(** X18. The loop of [GetX509Proxy] has read up to the end of the file
    after one pass more than the number of whole blocks of 1024 bytes
    still unread, from whatever position it starts and whatever the
    string holds: it appends the unread bytes and nothing else. *)
Theorem read_loop_passes (fuel : nat) (fp : FILE) (proxy : list ascii) :
  unread fp / kBufSize < fuel ->
  read_loop fuel fp proxy =
  (mkFILE (f_data fp) (f_pos fp + unread fp),
   proxy ++ drop (f_pos fp) (f_data fp)).
Proof.
  revert fp proxy. induction fuel as [|fuel IH]; intros [data pos] proxy Hfuel;
    [lia|].
  unfold unread in *. cbn [read_loop fread f_data f_pos] in *.
  set (got := take kBufSize (drop pos data)).
  assert (length got = Nat.min kBufSize (length data - pos)) as Hgot
    by (unfold got; rewrite length_take, length_drop; reflexivity).
  destruct (Nat.eqb_spec (length got) kBufSize) as [Hfull|Hshort].
  - assert ((0 <? length got) = true) as ->
      by (apply Nat.ltb_lt; rewrite Hfull; unfold kBufSize; lia).
    assert (kBufSize <= length data - pos) as Hblock by lia.
    rewrite IH.
    + cbn [f_data f_pos]. f_equal.
      * f_equal. lia.
      * rewrite <- app_assoc. f_equal.
        transitivity (got ++ drop kBufSize (drop pos data));
          [|apply take_drop].
        f_equal. rewrite drop_drop, Hfull. reflexivity.
    + cbn [f_data f_pos]. rewrite Hfull.
      replace (length data - pos)
        with (1 * kBufSize + (length data - (pos + kBufSize))) in Hfuel
        by lia.
      rewrite Nat.div_add_l in Hfuel by (unfold kBufSize; lia). lia.
  - assert (got = drop pos data) as Hall.
    { unfold got. apply take_ge. rewrite length_drop. lia. }
    f_equal.
    + f_equal. lia.
    + destruct (Nat.ltb_spec 0 (length got)) as [_|Hzero].
      * rewrite Hall. reflexivity.
      * rewrite <- Hall. destruct got; [|simpl in Hzero; lia].
        symmetry. apply app_nil_r.
Qed.

Lemma read_loop_passes_witness :
  read_loop 3 (mkFILE (replicate 2048 "a"%char) 0) (lit "old") =
  (mkFILE (replicate 2048 "a"%char) (0 + 2048),
   lit "old" ++ drop 0 (replicate 2048 "a"%char)).
Proof.
  apply (read_loop_passes 3 (mkFILE (replicate 2048 "a"%char) 0) (lit "old")).
  vm_compute. lia.
Defined.
